(** * PengyStream: naming policy, eligibility, admission and orphan cleanup

    A shallow embedding of the ingestion-and-admission scheduler of
    PengyStream ([file_scanner.py], [cleanup.py], [video_converter.py],
    [performance_monitor.py] and the worker loop of [main.py]) together
    with the properties its design document states about it.

    Conventions of the embedding.
    - Text is a list of characters ([str]); [lower] folds the letters A-Z,
      which is what [str.lower] does on ASCII text.
    - A path is the list of its components below the root, as [pathlib]
      keeps them in [parts]; a component is an atom (it holds no separator).
    - Calls that may raise return a [result]; [try]/[except] is [catch].
    - The filesystem is a finite map from paths to entries plus the
      permission faults the operating system reports on it. *)

From Stdlib Require Import Ascii String ZArith QArith Lia Permutation.
From stdpp Require Import base list gmap strings.

Local Close Scope Q_scope.
Local Open Scope nat_scope.
Local Open Scope list_scope.

(** ** Text *)

Abbreviation str := (list ascii).

Definition lit (s : string) : str := list_ascii_of_string s.

Definition dot : ascii := "."%char.

(** [str.lower] on ASCII text. *)
Definition lower_char (c : ascii) : ascii :=
let n := nat_of_ascii c in
if (65 <=? n) && (n <=? 90) then ascii_of_nat (n + 32) else c.

Definition lower (s : str) : str := map lower_char s.

(** [s.endswith(t)] *)
Definition endswith (s t : str) : bool := bool_decide (t `suffix_of` s).

(** [s[:-k]] for [k = len(t)]: Python reads [s[:-0]] as [s[:0]], the empty
    text, and a [k] beyond the length as the empty text too. *)
Definition slice_to_neg (s : str) (k : nat) : str :=
if k =? 0 then [] else take (length s - k) s.

(** [s.rfind(c)]: the index of the last occurrence, [None] for Python's -1. *)
Fixpoint rfind (c : ascii) (s : str) : option nat :=
match s with
| [] => None
| x :: t =>
      match rfind c t with
      | Some i => Some (S i)
      | None => if Ascii.eqb x c then Some 0 else None
      end
end.

(** ** Paths ([pathlib.PurePosixPath]) *)

Abbreviation Path := (list (list ascii)).

(** [path.name]: the final component, empty for the root. *)
Definition name (p : Path) : str := default [] (last p).

(** [path.parent]: the root is its own parent. *)
Definition parent (p : Path) : Path := removelast p.

(** [path.suffix]: from the last dot of the name on, unless that dot opens
    or closes the name. *)
Definition path_suffix (p : Path) : str :=
let nm := name p in
match rfind dot nm with
| Some i => if (0 <? i) && (i <? length nm - 1) then drop i nm else []
| None => []
end.

(** [path.stem]: the name without its suffix. *)
Definition path_stem (p : Path) : str :=
let nm := name p in
match rfind dot nm with
| Some i => if (0 <? i) && (i <? length nm - 1) then take i nm else nm
| None => nm
end.

(** [path / s] for a single component [s]: [pathlib] drops an empty
    component and a lone dot. *)
Definition truediv (p : Path) (s : str) : Path :=
if bool_decide (s = []) || bool_decide (s = [dot]) then p else p ++ [s].

(** ** Exceptions *)

Inductive exn :=
| PermissionError
| FileNotFoundError
| IsADirectoryError
| NotADirectoryError
| OSError
| ValueError
| OverflowError
| TimeoutExpired
| RuntimeError.

Global Instance exn_eq_dec : EqDecision exn.
Proof. solve_decision. Defined.

(** [isinstance(e, OSError)] *)
Definition is_OSError (e : exn) : bool :=
match e with
| PermissionError | FileNotFoundError | IsADirectoryError
| NotADirectoryError | OSError => true
| _ => false
end.

Inductive result (A : Type) :=
| Ok (a : A)
| Raise (e : exn).
Arguments Ok {A} a.
Arguments Raise {A} e.

Global Instance result_eq_dec {A} `{EqDecision A} : EqDecision (result A).
Proof. solve_decision. Defined.

Global Instance result_ret : MRet result := λ A a, Ok a.

Global Instance result_bind : MBind result := λ A B k r,
match r with
| Ok a => k a
| Raise e => Raise e
end.

(** [try: r except <handles>: h] *)
Definition catch {A} (handles : exn → bool) (r : result A) (h : exn → result A)
: result A :=
match r with
| Ok a => Ok a
| Raise e => if handles e then h e else Raise e
end.

(** [except Exception]: every exception of the model derives from it. *)
Definition is_Exception (e : exn) : bool := true.

(** ** The filesystem

    An entry is a directory or a file with the size [stat] reports.  The
    three fault predicates say where the operating system refuses a call:
    [stat_denied] makes [stat] (and so [exists] and [is_dir]) raise,
    [list_denied] makes listing a directory raise, [unlink_denied] makes
    [unlink] raise; each refusal is a [PermissionError]. *)

Record entry := mk_entry {
  is_dir : bool;
  st_size : Z
}.

Record World := mk_world {
  entries : gmap Path entry;
  stat_denied : Path → bool;
  list_denied : Path → bool;
  unlink_denied : Path → bool
}.

Definition file (size : Z) : entry := mk_entry false size.
Definition directory : entry := mk_entry true 4096.

(** [os.stat(p)] *)
Definition os_stat (w : World) (p : Path) : result entry :=
  if stat_denied w p then Raise PermissionError
  else match entries w !! p with
       | Some e => Ok e
       | None => Raise FileNotFoundError
       end.

(** [pathlib._ignore_error]: a missing path is not an error. *)
Definition ignore_error (e : exn) : bool :=
  bool_decide (e = FileNotFoundError) || bool_decide (e = NotADirectoryError).

(** [Path.exists()]: [stat], reading a missing path as [False] and raising
    every other error. *)
Definition path_exists (w : World) (p : Path) : result bool :=
  catch (λ e, is_OSError e && ignore_error e)
        (_ ← os_stat w p; Ok true)
        (λ _, Ok false).

(** [Path.is_dir()] *)
Definition path_is_dir (w : World) (p : Path) : result bool :=
  catch (λ e, is_OSError e && ignore_error e)
        (e ← os_stat w p; Ok (is_dir e))
        (λ _, Ok false).

(** [Path.unlink()] *)
Definition unlink (w : World) (p : Path) : result World :=
  if unlink_denied w p then Raise PermissionError
  else match entries w !! p with
       | None => Raise FileNotFoundError
       | Some e =>
           if is_dir e then Raise IsADirectoryError
           else Ok (mk_world (delete p (entries w)) (stat_denied w)
                             (list_denied w) (unlink_denied w))
       end.

(** A name a directory listing can report: not empty, not the lone dot. *)
Definition valid_name (c : str) : bool :=
  negb (bool_decide (c = [])) && negb (bool_decide (c = [dot])).

(** [p] is the entry named [name p] of directory [d]. *)
Definition child_of (d p : Path) : bool :=
  bool_decide (p = d ++ [name p]) && valid_name (name p).

(** [os.scandir(d)]: the entries of [d] with their names. *)
Definition scandir (w : World) (d : Path) : result (list (str * entry)) :=
  if list_denied w d then Raise PermissionError
  else match entries w !! d with
       | None => Raise FileNotFoundError
       | Some e =>
           if is_dir e then
             Ok (map (λ pe, (name pe.1, pe.2))
                     (filter (λ pe, child_of d pe.1 = true)
                             (map_to_list (entries w))))
           else Raise NotADirectoryError
       end.

(** ** [fnmatch]: shell patterns

    [translate] reads a pattern as [fnmatch.translate] does: a star, a
    question mark, a bracketed class (closed by the first bracket after an
    optional [!] and an optional leading bracket; a bracket that is never
    closed is an ordinary character), or an ordinary character.  Inside a
    class a hyphen between two characters makes a range. *)

Inductive class_item :=
| Single (c : ascii)
| Range (lo hi : ascii).

Inductive tok :=
| Star
| AnyChar
| Class (negated : bool) (items : list class_item)
| Lit (c : ascii).

(** The offset, in the text after an opening bracket, of the bracket that
    closes the class. *)
Definition class_end (s : str) : option nat :=
  let j := match s with
           | c :: _ => if Ascii.eqb c "!" then 1 else 0
           | [] => 0
           end in
  let j := match drop j s with
           | c :: _ => if Ascii.eqb c "]" then S j else j
           | [] => j
           end in
  match list_find (λ c, c = "]"%char) (drop j s) with
  | Some (k, _) => Some (j + k)
  | None => None
  end.

Fixpoint class_items (body : str) : list class_item :=
  match body with
  | [] => []
  | c :: rest =>
      match rest with
      | h :: hi :: rest' =>
          if Ascii.eqb h "-" then Range c hi :: class_items rest'
          else Single c :: class_items rest
      | _ => Single c :: class_items rest
      end
  end.

Definition make_class (stuff : str) : tok :=
  match stuff with
  | c :: body => if Ascii.eqb c "!" then Class true (class_items body)
                 else Class false (class_items stuff)
  | [] => Class false []
  end.

(** [skip] counts the characters of a class still to be passed over. *)
Fixpoint translate_from (skip : nat) (pat : str) : list tok :=
  match pat with
  | [] => []
  | c :: rest =>
      match skip with
      | S k => translate_from k rest
      | 0 =>
          if Ascii.eqb c "*" then Star :: translate_from 0 rest
          else if Ascii.eqb c "?" then AnyChar :: translate_from 0 rest
          else if Ascii.eqb c "[" then
            match class_end rest with
            | Some j => make_class (take j rest) :: translate_from (S j) rest
            | None => Lit c :: translate_from 0 rest
            end
          else Lit c :: translate_from 0 rest
      end
  end.

Definition translate (pat : str) : list tok := translate_from 0 pat.

Definition item_matches (c : ascii) (i : class_item) : bool :=
  match i with
  | Single x => Ascii.eqb c x
  | Range lo hi =>
      (nat_of_ascii lo <=? nat_of_ascii c) && (nat_of_ascii c <=? nat_of_ascii hi)
  end.

Definition class_matches (negated : bool) (items : list class_item)
    (c : ascii) : bool :=
  xorb negated (existsb (item_matches c) items).

(** The whole of [s] matches the tokens. *)
Fixpoint tokens_match (ts : list tok) (s : str) : bool :=
  match ts with
  | [] => bool_decide (s = [])
  | Star :: ts' =>
      (fix star (s : str) : bool :=
         tokens_match ts' s
         || match s with
            | [] => false
            | _ :: s' => star s'
            end) s
  | AnyChar :: ts' =>
      match s with
      | _ :: s' => tokens_match ts' s'
      | [] => false
      end
  | Class negated items :: ts' =>
      match s with
      | c :: s' => class_matches negated items c && tokens_match ts' s'
      | [] => false
      end
  | Lit x :: ts' =>
      match s with
      | c :: s' => Ascii.eqb c x && tokens_match ts' s'
      | [] => false
      end
  end.

(** [fnmatch.fnmatchcase(name, pat)] *)
Definition fnmatch (nm pat : str) : bool := tokens_match (translate pat) nm.

(** [t in s] *)
Fixpoint contains (s t : str) : bool :=
  bool_decide (t `prefix_of` s)
  || match s with
     | [] => false
     | _ :: s' => contains s' t
     end.

(** [Path.glob(pattern)] for a pattern of one component that holds a
    wildcard, which is the only kind [has_output_file] builds (its pattern
    ends in [.*]).  [pathlib] refuses an empty pattern and a component that
    holds two stars in a row; it yields nothing when [self] is not a
    directory or may not be listed; otherwise it yields every entry,
    file or directory, whose name matches. *)
Definition glob (w : World) (self : Path) (pattern : str) : result (list Path) :=
  if bool_decide (pattern = []) then Raise ValueError
  else if contains pattern (lit "**") then Raise ValueError
  else
    d ← path_is_dir w self;
    if negb d then Ok []
    else
      catch (λ e, bool_decide (e = PermissionError))
            (es ← scandir w self;
             Ok (map (λ ne, self ++ [ne.1])
                     (filter (λ ne, fnmatch ne.1 pattern = true) es)))
            (λ _, Ok []).

(** [time.sleep(seconds)] for an integer length.  The length is first
    converted to nanoseconds in a signed 64-bit integer, which raises
    [OverflowError] when it does not fit; a negative length is then
    refused with [ValueError]; at last the operating system is asked to
    wait, and [refused] tells whether it declines (a deadline beyond the
    range of its clock), which is an [OSError]. *)
Definition sleep (refused : bool) (seconds : Z) : result () :=
  let ns := (seconds * 1000000000)%Z in
  if (ns <? - 2 ^ 63)%Z || (2 ^ 63 - 1 <? ns)%Z then Raise OverflowError
  else if (seconds <? 0)%Z then Raise ValueError
  else if refused then Raise OSError
  else Ok ().

(** [for x in xs: s = body(s, x)], stopping at the first exception. *)
Fixpoint for_each {A S : Type} (xs : list A) (body : S → A → result S)
    (s : S) : result S :=
  match xs with
  | [] => Ok s
  | x :: xs' => s' ← body s x; for_each xs' body s'
  end.

(** [os.walk(top)]: the directories reached from [top] through directories
    that can be listed, each with the names of its sub-directories and of
    its other entries.  A directory whose listing fails is passed over in
    silence ([onerror] is not set), and with it everything below.  The
    directories come in the order of the map; the program never depends on
    the order of the traversal. *)
Definition listable (w : World) (d : Path) : bool :=
  match scandir w d with
  | Ok _ => true
  | Raise _ => false
  end.

Fixpoint walk_descends (w : World) (top : Path) (rel : list str) : bool :=
  listable w top
  && match rel with
     | [] => true
     | c :: rel' => valid_name c && walk_descends w (top ++ [c]) rel'
     end.

Definition walk_visits (w : World) (top d : Path) : bool :=
  bool_decide (top `prefix_of` d) && walk_descends w top (drop (length top) d).

Definition listing (w : World) (d : Path) : list (str * entry) :=
  match scandir w d with
  | Ok es => es
  | Raise _ => []
  end.

Definition os_walk (w : World) (top : Path) : list (Path * list str * list str) :=
  map (λ d, (d,
             map fst (filter (λ ne, is_dir ne.2 = true) (listing w d)),
             map fst (filter (λ ne, is_dir ne.2 = false) (listing w d))))
      (filter (λ d, walk_visits w top d = true)
              (map fst (map_to_list (entries w)))).

(** ** [config.py]: the fixed constants of the naming policy *)

Module Config.

Definition suffix : str := lit "-PengyStream".

Definition video_extensions : list str :=
  map lit [".mp4"; ".mkv"; ".avi"; ".mov"; ".m4v";
           ".wmv"; ".flv"; ".webm"; ".ts"; ".m2ts"]%string.

(** The settings [__init__] reads from the environment. *)
Record t := mk {
  movie_folders : list Path;
  max_encodes : Z;
  video_codec : str;
  audio_codec : str;
  max_resolution : Z;
  cpu_threshold : Q;
  gpu_threshold : Q;
  poll_interval : Z;
  copy_if_compatible : bool;
  log_file : str
}.

(** One turn of the loop of [validate] over the folders. *)
Definition check_folder (w : World) (_ : ()) (folder : Path) : result () :=
  e ← path_exists w folder;
  if negb e then Raise ValueError
  else
    d ← path_is_dir w folder;
    if negb d then Raise ValueError
    else Ok ().

Definition validate (self : t) (w : World) : result bool :=
  _ ← for_each (movie_folders self) (check_folder w) ();
  if negb (Qle_bool 0 (cpu_threshold self)
           && Qle_bool (cpu_threshold self) (100 # 1)) then Raise ValueError
  else if negb (Qle_bool 0 (gpu_threshold self)
                && Qle_bool (gpu_threshold self) (100 # 1)) then Raise ValueError
  else if (max_encodes self <? 1)%Z then Raise ValueError
  else Ok true.

End Config.

(** ** [file_scanner.py] *)

(** What [is_file_stable] sees of the system: the state of the filesystem
    at each of its four calls, two before the wait and two after it, and
    whether the operating system refuses the wait. *)
Record Samples := mk_samples {
  first_exists : World;
  first_stat : World;
  wait_refused : bool;
  second_exists : World;
  second_stat : World
}.

Module FileScanner.

Record t := mk {
  video_extensions : list str;
  suffix : str;
  output_format : str
}.

(** [__init__]: the output format gets its leading dot. *)
Definition init (video_extensions : list str) (suffix : str)
    (output_format : str) : t :=
  mk video_extensions suffix
     (match output_format with
      | c :: _ => if Ascii.eqb c dot then output_format else dot :: output_format
      | [] => [dot]
      end).

Definition is_video_file (self : t) (path : Path) : bool :=
  bool_decide (lower (path_suffix path) ∈ video_extensions self).

Definition is_already_processed (self : t) (path : Path) : bool :=
  let stem := path_stem path in
  endswith stem (suffix self).

Definition get_output_path (self : t) (input_path : Path) : Path :=
  let stem := path_stem input_path in
  let new_name := stem ++ suffix self ++ output_format self in
  truediv (parent input_path) new_name.

Definition has_output_file (self : t) (w : World) (input_path : Path)
    : result bool :=
  let stem := path_stem input_path in
  let parent := parent input_path in
  let pattern := stem ++ suffix self ++ lit ".*" in
  matching_files ← glob w parent pattern;
  Ok (0 <? length matching_files).

Definition is_file_stable (obs : Samples) (path : Path) (wait_time : Z)
    : result bool :=
  catch is_OSError
    (e1 ← path_exists (first_exists obs) path;
     if negb e1 then Ok false
     else
       initial ← os_stat (first_stat obs) path;
       let initial_size := st_size initial in
       _ ← sleep (wait_refused obs) wait_time;
       e2 ← path_exists (second_exists obs) path;
       if negb e2 then Ok false
       else
         final ← os_stat (second_stat obs) path;
         let final_size := st_size final in
         Ok (bool_decide (initial_size = final_size)))
    (λ _, Ok false).

(** The body of the inner loop of [scan_folder]. *)
Definition scan_file (self : t) (w : World) (root_path : Path)
    (candidates : list Path) (file : str) : result (list Path) :=
  let file_path := truediv root_path file in
  if negb (is_video_file self file_path) then Ok candidates
  else if is_already_processed self file_path then Ok candidates
  else
    has_output_file self w file_path ≫= λ has_output : bool,
    if has_output then Ok candidates
    else Ok (candidates ++ [file_path]).

(** The walk of [scan_folder], before its [except Exception]. *)
Definition scan_walk (self : t) (w : World) (folder : Path)
    : result (list Path) :=
  for_each (os_walk w folder)
           (λ candidates step,
              let '(root, _, files) := step in
              for_each files (scan_file self w root) candidates)
           [].

Definition scan_folder (self : t) (w : World) (folder : Path) : list Path :=
  match scan_walk self w folder with
  | Ok candidates => candidates
  | Raise e => []
  end.

Definition should_process (self : t) (w : World) (path : Path) : result bool :=
  if negb (is_video_file self path) then Ok false
  else if is_already_processed self path then Ok false
  else
    has_output_file self w path ≫= λ has_output : bool,
    if has_output then Ok false
    else
      e ← path_exists w path;
      if negb e then Ok false
      else Ok true.

End FileScanner.

(** ** [cleanup.py] *)

Module Cleanup.

Record t := mk {
  video_extensions : list str;
  suffix : str
}.

Definition get_original_path (self : t) (pengystream_path : Path) : Path :=
  let stem := path_stem pengystream_path in
  let ext := path_suffix pengystream_path in
  if endswith stem (suffix self) then
    let original_stem := slice_to_neg stem (length (suffix self)) in
    let original_name := original_stem ++ ext in
    truediv (parent pengystream_path) original_name
  else pengystream_path.

Definition is_pengystream_file (self : t) (path : Path) : bool :=
  bool_decide (lower (path_suffix path) ∈ video_extensions self)
  && endswith (path_stem path) (suffix self).

(** The body of the inner loop of [find_orphaned_files]. *)
Definition check_file (self : t) (w : World) (root_path : Path)
    (orphaned : list Path) (file : str) : result (list Path) :=
  let file_path := truediv root_path file in
  if negb (is_pengystream_file self file_path) then Ok orphaned
  else
    let original_path := get_original_path self file_path in
    e ← path_exists w original_path;
    if negb e then Ok (orphaned ++ [file_path])
    else Ok orphaned.

(** The walk of [find_orphaned_files], before its [except Exception]. *)
Definition orphan_walk (self : t) (w : World) (folder : Path)
    : result (list Path) :=
  for_each (os_walk w folder)
           (λ orphaned step,
              let '(root, _, files) := step in
              for_each files (check_file self w root) orphaned)
           [].

Definition find_orphaned_files (self : t) (w : World) (folder : Path)
    : list Path :=
  match orphan_walk self w folder with
  | Ok orphaned => orphaned
  | Raise e => []
  end.

(** One turn of the deletion loop: the count moves only when no exception
    was raised. *)
Definition delete_one (dry_run : bool) (st : nat * World) (file_path : Path)
    : nat * World :=
  let '(total_deleted, w) := st in
  if dry_run then (S total_deleted, w)
  else match unlink w file_path with
       | Ok w' => (S total_deleted, w')
       | Raise e => (total_deleted, w)
       end.

(** One turn of the loop over the folders. *)
Definition clean_folder (self : t) (dry_run : bool) (st : nat * World)
    (folder : Path) : nat * World :=
  let orphaned := find_orphaned_files self st.2 folder in
  foldl (delete_one dry_run) st orphaned.

(** Returns the count and the filesystem it leaves. *)
Definition cleanup_orphaned_files (self : t) (folders : list Path)
    (dry_run : bool) (w : World) : nat * World :=
  foldl (clean_folder self dry_run) (0, w) folders.

End Cleanup.

(** ** [video_converter.py] *)

Module VideoInfo.

Record t := mk {
  video_codec : str;
  video_height : Z;
  audio_codec : str;
  has_video : bool;
  has_audio : bool
}.

End VideoInfo.

(** One entry of the [streams] list that [ffprobe] prints; a field is
    [None] when the key is missing. *)
Record stream := mk_stream {
  codec_type : option str;
  codec_name : option str;
  height : option Z
}.

(** How a [subprocess.run] ends: the tool exits with a return code, or the
    call raises. *)
Inductive completed (A : Type) :=
| Exited (returncode : Z) (stdout : A)
| Raised (e : exn).
Arguments Exited {A} returncode stdout.
Arguments Raised {A} e.

(** One argument of the [ffmpeg] command line. *)
Inductive arg :=
| Word (s : str)
| Scale (height : Z)
| File_arg (p : Path).

(** The external tools.  [ffprobe] prints the streams of a file, [None]
    standing for output that [json.loads] rejects; [ffmpeg] runs a command
    and leaves the filesystem in some state. *)
Record Tools := mk_tools {
  ffprobe : World → Path → completed (option (list stream));
  ffmpeg : World → list arg → completed () * World
}.

Module VideoConverter.

Record t := mk {
  video_codec : str;
  audio_codec : str;
  max_resolution : Z;
  copy_if_compatible : bool
}.

(** The loop of [get_video_info] over the streams: the first video stream
    and the first audio stream count. *)
Definition read_stream (acc : option str * Z * option str * bool * bool)
    (s : stream) : option str * Z * option str * bool * bool :=
  let '(video_codec, video_height, audio_codec, has_video, has_audio) := acc in
  if bool_decide (codec_type s = Some (lit "video")) && negb has_video then
    (Some (lower (default [] (codec_name s))), default 0%Z (height s),
     audio_codec, true, has_audio)
  else if bool_decide (codec_type s = Some (lit "audio")) && negb has_audio then
    (video_codec, video_height,
     Some (lower (default [] (codec_name s))), has_video, true)
  else acc.

Definition get_video_info (self : t) (tools : Tools) (w : World)
    (file_path : Path) : option VideoInfo.t :=
  match ffprobe tools w file_path with
  | Raised e => None
  | Exited returncode stdout =>
      if bool_decide (returncode ≠ 0%Z) then None
      else match stdout with
           | None => None
           | Some streams =>
               let '(video_codec, video_height, audio_codec, has_video, has_audio) :=
                 foldl read_stream (None, 0%Z, None, false, false) streams in
               Some (VideoInfo.mk (default [] video_codec) video_height
                                  (default [] audio_codec) has_video has_audio)
           end
  end.

Definition is_compatible (self : t) (info : VideoInfo.t) : bool * bool :=
  let video_compat :=
    VideoInfo.has_video info
    && bool_decide (VideoInfo.video_codec info ∈ [lit "h264"; lit "avc"])
    && (VideoInfo.video_height info <=? max_resolution self)%Z in
  let audio_compat :=
    VideoInfo.has_audio info
    && bool_decide (VideoInfo.audio_codec info = audio_codec self) in
  (video_compat, audio_compat).

(** The command [convert_video] builds once it has decided to run. *)
Definition ffmpeg_command (self : t) (info : VideoInfo.t)
    (video_compat audio_compat : bool) (input_path output_path : Path)
    : list arg :=
  let cmd := [Word (lit "ffmpeg"); Word (lit "-i"); File_arg input_path;
              Word (lit "-y")] in
  let cmd :=
    if video_compat && copy_if_compatible self then
      cmd ++ [Word (lit "-c:v"); Word (lit "copy")]
    else
      let cmd := cmd ++ [Word (lit "-c:v"); Word (lit "libx264");
                         Word (lit "-preset"); Word (lit "medium");
                         Word (lit "-crf"); Word (lit "23")] in
      if (max_resolution self <? VideoInfo.video_height info)%Z then
        cmd ++ [Word (lit "-vf"); Scale (max_resolution self)]
      else cmd in
  let cmd :=
    if audio_compat && copy_if_compatible self then
      cmd ++ [Word (lit "-c:a"); Word (lit "copy")]
    else
      cmd ++ [Word (lit "-c:a"); Word (lit "aac");
              Word (lit "-b:a"); Word (lit "192k")] in
  cmd ++ [File_arg output_path].

(** [if output_path.exists(): output_path.unlink()] followed by
    [return False]; the filesystem is the one left when an exception
    stops it. *)
Definition remove_partial (w : World) (output_path : Path)
    : result bool * World :=
  match path_exists w output_path with
  | Raise e => (Raise e, w)
  | Ok false => (Ok false, w)
  | Ok true =>
      match unlink w output_path with
      | Raise e => (Raise e, w)
      | Ok w' => (Ok false, w')
      end
  end.

(** Returns its result, which may be an exception that escapes, and the
    filesystem it leaves. *)
Definition convert_video (self : t) (tools : Tools) (w : World)
    (input_path output_path : Path) : result bool * World :=
  match get_video_info self tools w input_path with
  | None => (Ok false, w)
  | Some info =>
      let '(video_compat, audio_compat) := is_compatible self info in
      if copy_if_compatible self && video_compat && audio_compat then
        (Ok false, w)
      else
        let cmd := ffmpeg_command self info video_compat audio_compat
                                  input_path output_path in
        let '(run, w1) := ffmpeg tools w cmd in
        let tried :=
          match run with
          | Raised e => (Raise e, w1)
          | Exited returncode _ =>
              if bool_decide (returncode ≠ 0%Z) then remove_partial w1 output_path
              else (Ok true, w1)
          end in
        match tried with
        | (Raise e, w2) =>
            if bool_decide (e = TimeoutExpired) then remove_partial w2 output_path
            else remove_partial w2 output_path
        | (Ok b, w2) => (Ok b, w2)
        end
  end.

End VideoConverter.

(** ** [performance_monitor.py] *)

(** What [psutil] and [nvidia-smi] report when asked. *)
Record Usage := mk_usage {
  cpu_usage : Q;
  gpu_usage : Q
}.

Inductive reason :=
| CpuTooHigh (usage threshold : Q)
| GpuTooHigh (usage threshold : Q)
| ResourcesAvailable.

Module PerformanceMonitor.

Record t := mk {
  cpu_threshold : Q;
  gpu_threshold : Q
}.

(** [get_gpu_usage], from the platform name and from what running
    [nvidia-smi] gives: the call raises, or the tool exits with a return
    code and a first line of output that [float] reads or rejects.  Every
    failure ends in 0. *)
Definition get_gpu_usage (platform : str) (nvidia_smi : completed (result Q)) : Q :=
  match
    catch is_Exception
      (early ←
         (if bool_decide (platform ∈ [lit "Windows"; lit "Linux"]) then
            catch (λ e, bool_decide (e ∈ [TimeoutExpired; FileNotFoundError;
                                          ValueError]))
                  (match nvidia_smi with
                   | Raised e => Raise e
                   | Exited returncode stdout =>
                       if bool_decide (returncode = 0%Z) then
                         usage ← stdout; Ok (Some usage)
                       else Ok None
                   end)
                  (λ _, Ok None)
          else Ok None);
       match early with
       | Some usage => Ok usage
       | None => Ok (0 # 1)%Q
       end)
      (λ _, Ok (0 # 1)%Q)
  with
  | Ok usage => usage
  | Raise _ => (0 # 1)%Q
  end.

Definition can_encode (self : t) (u : Usage) : bool * reason :=
  if negb (Qle_bool (cpu_usage u) (cpu_threshold self)) then
    (false, CpuTooHigh (cpu_usage u) (cpu_threshold self))
  else if negb (Qle_bool (gpu_usage u) (gpu_threshold self)) then
    (false, GpuTooHigh (gpu_usage u) (gpu_threshold self))
  else (true, ResourcesAvailable).

End PerformanceMonitor.

(** ** [main.py]: the worker loop *)

(** What one turn of the loop meets: the shutdown flag, the load of the
    machine and the behaviour of the external tools. *)
Record Env := mk_env {
  shutdown : bool;
  usage : Usage;
  tools : Tools
}.

(** What one turn of the loop did with the item it took. *)
Inductive event :=
| QueueEmpty
| Skipped (file_path : Path)
| Deferred (file_path : Path) (why : reason)
| Completed (file_path : Path)
| Failed (file_path : Path)
| Errored (file_path : Path) (e : exn).

Module EncodingWorker.

Record t := mk {
  converter : VideoConverter.t;
  scanner : FileScanner.t;
  perf_monitor : PerformanceMonitor.t
}.

(** The body of the [while] loop of [run], on the queue and the
    filesystem. *)
Definition step (self : t) (env : Env) (st : list Path * World)
    : list Path * World * event :=
  let '(file_queue, w) := st in
  match file_queue with
  | [] => (file_queue, w, QueueEmpty)
  | file_path :: file_queue =>
      match FileScanner.should_process (scanner self) w file_path with
      | Raise e => (file_queue, w, Errored file_path e)
      | Ok false => (file_queue, w, Skipped file_path)
      | Ok true =>
          let '(can_encode, why) :=
            PerformanceMonitor.can_encode (perf_monitor self) (usage env) in
          if negb can_encode then
            (file_queue ++ [file_path], w, Deferred file_path why)
          else
            let output_path :=
              FileScanner.get_output_path (scanner self) file_path in
            match VideoConverter.convert_video (converter self) (tools env) w
                                               file_path output_path with
            | (Ok true, w') => (file_queue, w', Completed file_path)
            | (Ok false, w') => (file_queue, w', Failed file_path)
            | (Raise e, w') => (file_queue, w', Errored file_path e)
            end
      end
  end.

(** [run]: one turn for each environment, until the shutdown flag is seen. *)
Fixpoint run (self : t) (envs : list Env) (st : list Path * World)
    : list Path * World * list event :=
  match envs with
  | [] => (st, [])
  | env :: envs' =>
      if shutdown env then (st, [])
      else
        let '(st', ev) := step self env st in
        let '(st'', evs) := run self envs' st' in
        (st'', ev :: evs)
  end.

End EncodingWorker.

(** ** [main.py]: discovery *)

(** A filesystem event as [watchdog] reports it. *)
Record FileSystemEvent := mk_event {
  is_directory : bool;
  src_path : Path
}.

Module VideoFileHandler.

(** [_handle_file], on the queue: the first body is the [try] block, whose
    every exception is caught and logged.  [obs] is what the stability
    check sees. *)
Definition _handle_file (scanner : FileScanner.t) (w : World) (obs : Samples)
    (file_queue : list Path) (file_path : Path) : list Path :=
  match
    catch is_Exception
      (eligible ← FileScanner.should_process scanner w file_path;
       if eligible : bool then
         stable ← FileScanner.is_file_stable obs file_path 5;
         if stable : bool then Ok (file_queue ++ [file_path])
         else Ok file_queue
       else Ok file_queue)
      (λ _, Ok file_queue)
  with
  | Ok q => q
  | Raise _ => file_queue
  end.

Definition on_created (scanner : FileScanner.t) (w : World) (obs : Samples)
    (file_queue : list Path) (event : FileSystemEvent) : list Path :=
  if is_directory event then file_queue
  else _handle_file scanner w obs file_queue (src_path event).

Definition on_modified (scanner : FileScanner.t) (w : World) (obs : Samples)
    (file_queue : list Path) (event : FileSystemEvent) : list Path :=
  if is_directory event then file_queue
  else _handle_file scanner w obs file_queue (src_path event).

End VideoFileHandler.


(** ** The program as [main] assembles it, and example filesystems *)

Definition the_scanner : FileScanner.t :=
  FileScanner.init Config.video_extensions Config.suffix (lit "mp4").

Definition the_cleanup : Cleanup.t :=
  Cleanup.mk Config.video_extensions Config.suffix.

Definition the_converter : VideoConverter.t :=
  VideoConverter.mk (lit "h264") (lit "aac") 1440 true.

Definition the_monitor : PerformanceMonitor.t :=
  PerformanceMonitor.mk (80 # 1) (80 # 1).

Definition the_worker : EncodingWorker.t :=
  EncodingWorker.mk the_converter the_scanner the_monitor.

Definition no_fault : Path → bool := λ _, false.

(** A filesystem without faults holding the given entries. *)
Definition world_of (es : list (Path * entry)) : World :=
  mk_world (list_to_map es) no_fault no_fault no_fault.

(** A filesystem that does not change during a stability check. *)
Definition still (w : World) : Samples := mk_samples w w false w w.

Definition media : Path := [lit "media"].
Definition movie_mkv : Path := [lit "media"; lit "movie.mkv"].

Definition media_world : World :=
  world_of [([], directory); (media, directory); (movie_mkv, file 700)].

(** The file an [ffmpeg] command writes: its last argument. *)
Definition output_of (cmd : list arg) : option Path :=
  match last cmd with
  | Some (File_arg p) => Some p
  | _ => None
  end.

Definition write_file (w : World) (p : Path) (size : Z) : World :=
  mk_world (<[p := file size]> (entries w)) (stat_denied w) (list_denied w)
           (unlink_denied w).

(** Tools that report the given streams; [ffmpeg] writes [size] bytes to
    its output and exits with [returncode]. *)
Definition tools_with (streams : list stream) (returncode size : Z) : Tools :=
  mk_tools (λ _ _, Exited 0 (Some streams))
           (λ w cmd, match output_of cmd with
                     | Some p => (Exited returncode (), write_file w p size)
                     | None => (Exited 1 (), w)
                     end).

Definition h264_1080_aac : list stream :=
  [mk_stream (Some (lit "video")) (Some (lit "h264")) (Some 1080%Z);
   mk_stream (Some (lit "audio")) (Some (lit "aac")) None].

Definition hevc_2160_aac : list stream :=
  [mk_stream (Some (lit "video")) (Some (lit "hevc")) (Some 2160%Z);
   mk_stream (Some (lit "audio")) (Some (lit "aac")) None].

Definition movie_out : Path := [lit "media"; lit "movie-PengyStream.mp4"].

(** The items a run of the worker gave up because [should_process] turned
    them down or raised. *)
Definition rejected (evs : list event) : list Path :=
  flat_map (λ ev, match ev with
                  | Skipped p | Errored p _ => [p]
                  | _ => []
                  end) evs.

(** The worker's monitor refuses admission under the load of [env]. *)
Definition denies (self : EncodingWorker.t) (env : Env) : Prop :=
  (PerformanceMonitor.can_encode (EncodingWorker.perf_monitor self) (usage env)).1
  = false.

(** [p] is absent, or a plain file that [stat] and [unlink] accept. *)
Definition removable (w : World) (p : Path) : bool :=
  negb (stat_denied w p)
  && match entries w !! p with
     | None => true
     | Some e => negb (is_dir e) && negb (unlink_denied w p)
     end.

(** What [get_video_info] reads from [hevc_2160_aac]. *)
Definition hevc_2160_aac_info : VideoInfo.t :=
  VideoInfo.mk (lit "hevc") 2160 (lit "aac") true true.

(** A turn of the loop on a machine at 95% CPU: the scenario of the design
    document, with a threshold of 80%. *)
Definition busy : Env :=
  mk_env false (mk_usage (95 # 1) (0 # 1)) (tools_with hevc_2160_aac 0 350).

(** A turn of the loop on an idle machine. *)
Definition idle (t : Tools) : Env := mk_env false (mk_usage (5 # 1) (0 # 1)) t.

(** [media_world] with the derivative of the movie locked against
    removal, as happens while another process holds the file. *)
Definition locked_world : World :=
  mk_world (entries media_world) no_fault no_fault
           (λ p, bool_decide (p = movie_out)).

(** ** Notions the properties are stated with *)

(** Every entry but the root lies in a directory. *)
Definition tree_shaped (w : World) : bool :=
  forallb (λ pe, bool_decide (pe.1 = [])
                 || match entries w !! parent pe.1 with
                    | Some e => is_dir e
                    | None => false
                    end)
          (map_to_list (entries w)).

(** The pattern [has_output_file] hands to [glob] for [p]. *)
Definition output_pattern (self : FileScanner.t) (p : Path) : str :=
  path_stem p ++ FileScanner.suffix self ++ lit ".*".

(** [q] is an entry, file or directory, of the directory of [p] whose name
    matches the pattern of [p]. *)
Definition derivative_entry (self : FileScanner.t) (w : World) (p q : Path)
    : Prop :=
  is_Some (entries w !! q)
  ∧ child_of (parent p) q = true
  ∧ fnmatch (name q) (output_pattern self p) = true.

(** The operating system answers [stat] on [p] and on its directory, and
    lets the directory be listed. *)
Definition reachable (w : World) (p : Path) : Prop :=
  stat_denied w p = false
  ∧ stat_denied w (parent p) = false
  ∧ list_denied w (parent p) = false.

(** A path of [media_world] that names no entry. *)
Definition ghost_mkv : Path := [lit "media"; lit "ghost.mkv"].

(** A source whose stem holds a bracketed class. *)
Definition bracket_mkv : Path := [lit "media"; lit "movie[1].mkv"].

Definition bracket_world : World :=
  world_of [([], directory); (media, directory); (bracket_mkv, file 700)].

(** The paths [os.walk] hands to the loops of [scan_folder] and
    [find_orphaned_files]: [root / file] for each file name of each step. *)
Definition walk_files (w : World) (folder : Path) : list Path :=
  flat_map (λ step, let '(root, _, files) := step in map (truediv root) files)
           (os_walk w folder).

Definition walked (w : World) (folder f : Path) : Prop :=
  f ∈ walk_files w folder.

(** The three tests [scan_folder] makes on a file, as one answer: is the
    file a candidate? *)
Definition candidate_check (self : FileScanner.t) (w : World) (f : Path)
    : result bool :=
  if negb (FileScanner.is_video_file self f) then Ok false
  else if FileScanner.is_already_processed self f then Ok false
  else FileScanner.has_output_file self w f ≫= λ has_output : bool,
       Ok (negb has_output).

(** The two tests [find_orphaned_files] makes on a file: is it an orphan? *)
Definition orphan_check (self : Cleanup.t) (w : World) (f : Path)
    : result bool :=
  if negb (Cleanup.is_pengystream_file self f) then Ok false
  else path_exists w (Cleanup.get_original_path self f) ≫= λ e : bool,
       Ok (negb e).

(** Two sources in sibling directories; the stem of the second holds two
    stars in a row. *)
Definition good_mkv : Path := [lit "media"; lit "a"; lit "good.mkv"].
Definition stars_mkv : Path := [lit "media"; lit "b"; lit "x**y.mkv"].

Definition stars_world : World :=
  world_of [([], directory); (media, directory);
            ([lit "media"; lit "a"], directory); (good_mkv, file 700);
            ([lit "media"; lit "b"], directory); (stars_mkv, file 900)].

(** Two sources in sibling directories; the second directory cannot be
    listed. *)
Definition plain_mkv : Path := [lit "media"; lit "b"; lit "plain.mkv"].

Definition closed_dir_world : World :=
  mk_world (list_to_map
              [([], directory); (media, directory);
               ([lit "media"; lit "a"], directory); (good_mkv, file 700);
               ([lit "media"; lit "b"], directory); (plain_mkv, file 900)])
           no_fault
           (λ d, bool_decide (d = [lit "media"; lit "b"]))
           no_fault.

(** [w'] is [w] with some derivative files removed: the faults are the
    same, and every path names the entry it named, or names nothing any
    more and named a plain file that [is_pengystream_file] accepts. *)
Definition only_removes_derivatives (cl : Cleanup.t) (w w' : World) : Prop :=
  stat_denied w' = stat_denied w
  ∧ list_denied w' = list_denied w
  ∧ unlink_denied w' = unlink_denied w
  ∧ ∀ p, entries w' !! p = entries w !! p
         ∨ (entries w' !! p = None
            ∧ ∃ e, entries w !! p = Some e ∧ is_dir e = false
                   ∧ Cleanup.is_pengystream_file cl p = true).

(** Every derivative the walk of [folder] meets has its presumed source. *)
Definition no_orphans (cl : Cleanup.t) (w : World) (folder : Path) : Prop :=
  ∀ f, walked w folder f → Cleanup.is_pengystream_file cl f = true →
       is_Some (entries w !! Cleanup.get_original_path cl f).

(** No derivative on the filesystem has a presumed source that is itself
    named like a derivative (no file carries the marker twice). *)
Definition single_marker (cl : Cleanup.t) (w : World) : Prop :=
  ∀ f, is_Some (entries w !! f) → Cleanup.is_pengystream_file cl f = true →
       Cleanup.is_pengystream_file cl (Cleanup.get_original_path cl f) = false.

(** A folder holding a derivative whose source is gone, beside a source
    with its derivative. *)
Definition other_mkv : Path := [lit "media"; lit "other.mkv"].
Definition other_out : Path := [lit "media"; lit "other-PengyStream.mp4"].

Definition orphan_world : World :=
  world_of [([], directory); (media, directory); (movie_out, file 350);
            (other_mkv, file 700); (other_out, file 300)].

(** The movie with a derivative in the output container, and with a
    derivative in another container. *)
Definition encoded_world : World :=
  world_of [([], directory); (media, directory); (movie_mkv, file 700);
            (movie_out, file 350)].

Definition avi_world : World :=
  world_of [([], directory); (media, directory); (movie_mkv, file 700);
            ([lit "media"; lit "movie-PengyStream.avi"], file 350)].

(** A converter with the copy flag off. *)
Definition plain_converter : VideoConverter.t :=
  VideoConverter.mk (lit "h264") (lit "aac") 1440 false.

(** What [get_video_info] reads from [h264_1080_aac]. *)
Definition h264_1080_aac_info : VideoInfo.t :=
  VideoInfo.mk (lit "h264") 1080 (lit "aac") true true.


(** A converter whose configured video codec is [hevc], and a source that
    is already in that codec, within the maximum height. *)
Definition hevc_converter : VideoConverter.t :=
  VideoConverter.mk (lit "hevc") (lit "aac") 1440 true.

Definition hevc_1080_aac : list stream :=
  [mk_stream (Some (lit "video")) (Some (lit "hevc")) (Some 1080%Z);
   mk_stream (Some (lit "audio")) (Some (lit "aac")) None].

Definition hevc_1080_aac_info : VideoInfo.t :=
  VideoInfo.mk (lit "hevc") 1080 (lit "aac") true true.
(** ** Text and path lemmas *)

Lemma rfind_None c s : rfind c s = None ↔ c ∉ s.
Proof.
  induction s as [|x t IH]; simpl.
  - split; [intros _; apply not_elem_of_nil | done].
  - destruct (rfind c t) as [i|] eqn:E.
    + split; [done|]. intros Hn. exfalso.
      assert (c ∉ t) as Ht by (intros ?; apply Hn; by right).
      apply IH in Ht. done.
    + destruct (Ascii.eqb x c) eqn:Ex.
      * apply Ascii.eqb_eq in Ex as ->. split; [done|].
        intros Hn. exfalso. apply Hn. by left.
      * apply Ascii.eqb_neq in Ex. split; [|done].
        intros _ Hin. apply elem_of_cons in Hin as [->|Hin]; [done|].
        by apply IH in Hin.
Qed.

Lemma rfind_app_last c a e :
  c ∉ e → rfind c (a ++ c :: e) = Some (length a).
Proof.
  intros He. induction a as [|x a IH]; simpl.
  - apply rfind_None in He. rewrite He. by rewrite Ascii.eqb_refl.
  - by rewrite IH.
Qed.

Lemma name_snoc (p : Path) (s : str) : name (p ++ [s]) = s.
Proof. unfold name. by rewrite last_snoc. Qed.

Lemma parent_snoc (p : Path) (s : str) : parent (p ++ [s]) = p.
Proof. unfold parent. apply removelast_last. Qed.

Lemma truediv_component (p : Path) (s : str) :
  s ≠ [] → s ≠ [dot] → truediv p s = p ++ [s].
Proof.
  intros H1 H2. unfold truediv.
  rewrite (bool_decide_eq_false_2 _ H1), (bool_decide_eq_false_2 _ H2). done.
Qed.

(** The name [a ++ "." ++ e] with [a] non-empty and [e] a non-empty run
    without dots splits into stem [a] and suffix ["." ++ e]. *)
Lemma split_dotted_name (p : Path) (a e : str) :
  a ≠ [] → e ≠ [] → dot ∉ e →
  path_stem (p ++ [a ++ dot :: e]) = a
  ∧ path_suffix (p ++ [a ++ dot :: e]) = dot :: e.
Proof.
  intros Ha He Hd. unfold path_stem, path_suffix. rewrite name_snoc.
  rewrite rfind_app_last by done.
  assert (0 < length a) by (destruct a; simpl; [done | lia]).
  assert (0 < length e) by (destruct e; simpl; [done | lia]).
  replace (0 <? length a) with true by (symmetry; apply Nat.ltb_lt; lia).
  replace (length a <? length (a ++ dot :: e) - 1) with true.
  2:{ symmetry. apply Nat.ltb_lt. rewrite length_app. simpl. lia. }
  simpl. split.
  - by rewrite take_app_length.
  - by rewrite drop_app_length.
Qed.

Lemma path_stem_nonempty (p : Path) : name p ≠ [] → path_stem p ≠ [].
Proof.
  intros Hn. unfold path_stem.
  destruct (rfind dot (name p)) as [i|]; [|done].
  destruct (0 <? i) eqn:Hi; simpl; [|done].
  destruct (i <? length (name p) - 1) eqn:Hl; [|done].
  apply Nat.ltb_lt in Hi. apply Nat.ltb_lt in Hl.
  intros Ht. apply (f_equal length) in Ht. rewrite length_take in Ht.
  simpl in Ht. lia.
Qed.

Lemma endswith_app (a m : str) : endswith (a ++ m) m = true.
Proof. apply bool_decide_eq_true_2. by apply suffix_app_r. Qed.

Lemma slice_to_neg_app (a m : str) :
  m ≠ [] → slice_to_neg (a ++ m) (length m) = a.
Proof.
  intros Hm. unfold slice_to_neg.
  destruct m as [|c m]; [done|]. simpl Nat.eqb. cbv iota.
  rewrite length_app.
  replace (length a + length (c :: m) - length (c :: m)) with (length a) by lia.
  by rewrite take_app_length.
Qed.

(** ** The naming round trip *)

(** C10: a path whose stem does not end with the marker is returned
    unchanged by [get_original_path]. *)
Theorem get_original_path_non_derivative (cl : Cleanup.t) (p : Path) :
  endswith (path_stem p) (Cleanup.suffix cl) = false →
  Cleanup.get_original_path cl p = p.
Proof. intros H. unfold Cleanup.get_original_path. by rewrite H. Qed.

Lemma get_original_path_non_derivative_witness :
  endswith (path_stem movie_mkv) (Cleanup.suffix the_cleanup) = false
  ∧ Cleanup.get_original_path the_cleanup movie_mkv = movie_mkv.
Proof.
  split; [by vm_compute|].
  apply (get_original_path_non_derivative the_cleanup). by vm_compute.
Defined.

(** C5: stripping the marker from the derivative of [p] gives a path in the
    directory of [p] with the stem of [p]; its extension is the configured
    output container. *)
Theorem original_of_output_same_stem
    (sc : FileScanner.t) (cl : Cleanup.t) (e : str) (p : Path) :
  name p ≠ [] →
  Cleanup.suffix cl = FileScanner.suffix sc →
  FileScanner.suffix sc ≠ [] →
  FileScanner.output_format sc = dot :: e → e ≠ [] → dot ∉ e →
  let d := FileScanner.get_output_path sc p in
  path_stem (Cleanup.get_original_path cl d) = path_stem p
  ∧ parent (Cleanup.get_original_path cl d) = parent p
  ∧ path_suffix (Cleanup.get_original_path cl d) = FileScanner.output_format sc.
Proof.
  intros Hn Hs Hm Hf He Hd d.
  pose proof (path_stem_nonempty p Hn) as HS.
  set (S := path_stem p) in *. set (m := FileScanner.suffix sc) in *.
  assert (Hd' : d = parent p ++ [(S ++ m) ++ dot :: e]).
  { subst d. unfold FileScanner.get_output_path. fold S m. rewrite Hf.
    rewrite truediv_component.
    - by rewrite <- app_assoc.
    - destruct S; simpl; done.
    - destruct S as [|c [|c' S']]; simpl; try done.
      destruct m; simpl; done. }
  assert (Ha : S ++ m ≠ []) by (destruct S; simpl; done).
  destruct (split_dotted_name (parent p) (S ++ m) e Ha He Hd) as [Hst Hsu].
  unfold Cleanup.get_original_path. rewrite Hd', Hst, Hsu, Hs. fold m.
  rewrite endswith_app, slice_to_neg_app by done.
  rewrite parent_snoc.
  rewrite truediv_component.
  - destruct (split_dotted_name (parent p) S e HS He Hd) as [Hst' Hsu'].
    split_and!; [exact Hst' | apply parent_snoc | by rewrite Hf].
  - destruct S; simpl; done.
  - destruct S as [|c [|c' S']]; simpl; done.
Qed.

Lemma original_of_output_same_stem_witness :
  let sc := FileScanner.init Config.video_extensions Config.suffix (lit "mp4") in
  let cl := Cleanup.mk Config.video_extensions Config.suffix in
  let p := [lit "media"; lit "movie.2020.mkv"] in
  let d := FileScanner.get_output_path sc p in
  path_stem (Cleanup.get_original_path cl d) = path_stem p
  ∧ parent (Cleanup.get_original_path cl d) = parent p
  ∧ path_suffix (Cleanup.get_original_path cl d) = FileScanner.output_format sc.
Proof.
  apply (original_of_output_same_stem
           (FileScanner.init Config.video_extensions Config.suffix (lit "mp4"))
           (Cleanup.mk Config.video_extensions Config.suffix)
           (lit "mp4")
           [lit "media"; lit "movie.2020.mkv"]).
  - by vm_compute.
  - reflexivity.
  - by vm_compute.
  - reflexivity.
  - by vm_compute.
  - vm_compute. intros H. repeat (apply elem_of_cons in H as [H|H]; [done|]).
    by apply elem_of_nil in H.
Defined.

(** ** The stability check *)

(** A length that [time.sleep] takes: the wait happens unless the operating
    system refuses it. *)
Lemma sleep_accepts (refused : bool) (seconds : Z) :
  (0 ≤ seconds ≤ 9223372036)%Z →
  sleep refused seconds = if refused then Raise OSError else Ok ().
Proof.
  intros H. unfold sleep. cbv zeta.
  change (- 2 ^ 63)%Z with (- 9223372036854775808)%Z.
  change (2 ^ 63 - 1)%Z with 9223372036854775807%Z.
  replace (seconds * 1000000000 <? - 9223372036854775808)%Z with false
    by (symmetry; apply Z.ltb_ge; lia).
  replace (9223372036854775807 <? seconds * 1000000000)%Z with false
    by (symmetry; apply Z.ltb_ge; lia).
  replace (seconds <? 0)%Z with false by (symmetry; apply Z.ltb_ge; lia).
  reflexivity.
Qed.

(** Outside that range [time.sleep] raises before any wait, and the handler
    of [is_file_stable], which catches [OSError] only, lets the exception
    through. *)
Lemma is_file_stable_rejected_wait :
  FileScanner.is_file_stable (still media_world) movie_mkv (-1)
  = Raise ValueError
  ∧ FileScanner.is_file_stable (still media_world) movie_mkv 10000000000
    = Raise OverflowError.
Proof. split; vm_compute; reflexivity. Qed.

(** C8: for a wait that [time.sleep] takes as a length, [is_file_stable]
    returns a boolean whatever the filesystem does at its four calls and
    whether or not the operating system grants the wait; the boolean is
    true only if the file exists at both samples with the same size, and
    false whenever the file is missing at a sample, a call raises or the
    wait is refused. *)
Theorem is_file_stable_total (obs : Samples) (path : Path) (wait_time : Z) :
  (0 ≤ wait_time ≤ 9223372036)%Z →
  ∃ b : bool,
    FileScanner.is_file_stable obs path wait_time = Ok b
    ∧ (b = true →
       path_exists (first_exists obs) path = Ok true
       ∧ path_exists (second_exists obs) path = Ok true
       ∧ ∃ e1 e2, os_stat (first_stat obs) path = Ok e1
                  ∧ os_stat (second_stat obs) path = Ok e2
                  ∧ st_size e1 = st_size e2)
    ∧ (path_exists (first_exists obs) path = Ok false
       ∨ path_exists (second_exists obs) path = Ok false
       ∨ (∃ e, path_exists (first_exists obs) path = Raise e)
       ∨ (∃ e, os_stat (first_stat obs) path = Raise e)
       ∨ wait_refused obs = true
       ∨ (∃ e, path_exists (second_exists obs) path = Raise e)
       ∨ (∃ e, os_stat (second_stat obs) path = Raise e) →
       b = false).
Proof.
  intros Hw. unfold FileScanner.is_file_stable.
  rewrite (sleep_accepts _ _ Hw).
  assert (Hex : ∀ w e, path_exists w path = Raise e → is_OSError e = true).
  { intros w e. unfold path_exists, os_stat.
    destruct (stat_denied w path); simpl; [by intros [= <-]|].
    destruct (entries w !! path); simpl; done. }
  assert (Hst : ∀ w e, os_stat w path = Raise e → is_OSError e = true).
  { intros w e. unfold os_stat.
    destruct (stat_denied w path); [by intros [= <-]|].
    destruct (entries w !! path); [done | by intros [= <-]]. }
  destruct (path_exists (first_exists obs) path) as [[|]|x1] eqn:E1; simpl.
  2:{ exists false. split_and!; [done | done | done]. }
  2:{ rewrite (Hex _ _ E1). exists false. split_and!; done. }
  destruct (os_stat (first_stat obs) path) as [s1|x2] eqn:E2; simpl.
  2:{ rewrite (Hst _ _ E2). exists false. split_and!; [done | done | done]. }
  destruct (wait_refused obs) eqn:Er; simpl.
  { exists false. split_and!; done. }
  destruct (path_exists (second_exists obs) path) as [[|]|x3] eqn:E3; simpl.
  2:{ exists false. split_and!; done. }
  2:{ rewrite (Hex _ _ E3). exists false. split_and!; done. }
  destruct (os_stat (second_stat obs) path) as [s2|x4] eqn:E4; simpl.
  2:{ rewrite (Hst _ _ E4). exists false. split_and!; done. }
  exists (bool_decide (st_size s1 = st_size s2)). split_and!; [done | |].
  - intros Hb. apply bool_decide_eq_true in Hb. split_and!; [done..|].
    by exists s1, s2.
  - intros [H|[H|[[e H]|[[e H]|[H|[[e H]|[e H]]]]]]]; done.
Qed.

Lemma is_file_stable_total_witness :
  (0 ≤ 5 ≤ 9223372036)%Z
  ∧ ∃ b : bool,
      FileScanner.is_file_stable (still media_world) movie_mkv 5 = Ok b
      ∧ (b = true →
         path_exists (first_exists (still media_world)) movie_mkv = Ok true
         ∧ path_exists (second_exists (still media_world)) movie_mkv = Ok true
         ∧ ∃ e1 e2, os_stat (first_stat (still media_world)) movie_mkv = Ok e1
                    ∧ os_stat (second_stat (still media_world)) movie_mkv = Ok e2
                    ∧ st_size e1 = st_size e2)
      ∧ (path_exists (first_exists (still media_world)) movie_mkv = Ok false
         ∨ path_exists (second_exists (still media_world)) movie_mkv = Ok false
         ∨ (∃ e, path_exists (first_exists (still media_world)) movie_mkv = Raise e)
         ∨ (∃ e, os_stat (first_stat (still media_world)) movie_mkv = Raise e)
         ∨ wait_refused (still media_world) = true
         ∨ (∃ e, path_exists (second_exists (still media_world)) movie_mkv = Raise e)
         ∨ (∃ e, os_stat (second_stat (still media_world)) movie_mkv = Raise e) →
         b = false).
Proof.
  split; [lia|]. apply (is_file_stable_total (still media_world) movie_mkv 5). lia.
Defined.

(** ** Stream copying *)

(** What [is_compatible] answers, spelled out: the video stream is
    compatible when the source has one whose codec is h264 or avc, whatever
    video codec is configured, and whose height is within the configured
    maximum; the audio stream when the source has one whose codec is the
    configured audio codec. *)
Lemma is_compatible_spec (conv : VideoConverter.t) (info : VideoInfo.t) :
  ((VideoConverter.is_compatible conv info).1 = true
   ↔ VideoInfo.has_video info = true
     ∧ (VideoInfo.video_codec info = lit "h264"
        ∨ VideoInfo.video_codec info = lit "avc")
     ∧ (VideoInfo.video_height info ≤ VideoConverter.max_resolution conv)%Z)
  ∧ ((VideoConverter.is_compatible conv info).2 = true
     ↔ VideoInfo.has_audio info = true
       ∧ VideoInfo.audio_codec info = VideoConverter.audio_codec conv).
Proof.
  unfold VideoConverter.is_compatible. cbn [fst snd]. split.
  - rewrite !andb_true_iff, bool_decide_eq_true, Z.leb_le.
    rewrite elem_of_cons, list_elem_of_singleton. tauto.
  - by rewrite andb_true_iff, bool_decide_eq_true.
Qed.

(** C9 as stated fails, in two ways.  A source whose two streams are
    already compatible is skipped: [ffmpeg] is not run and no derivative
    appears, although the tools at hand would have written one.  And the
    configured video codec plays no part: with [hevc] configured, a source
    already in [hevc] within the maximum height is not judged compatible,
    and its video stream is transcoded to [libx264] instead of copied. *)
Lemma compatible_source_is_skipped :
  (VideoConverter.copy_if_compatible the_converter = true
   ∧ VideoConverter.convert_video the_converter (tools_with h264_1080_aac 0 350)
       media_world movie_mkv movie_out = (Ok false, media_world)
   ∧ entries media_world !! movie_out = None)
  ∧ (VideoConverter.copy_if_compatible hevc_converter = true
     ∧ VideoConverter.video_codec hevc_converter = lit "hevc"
     ∧ VideoConverter.get_video_info hevc_converter
         (tools_with hevc_1080_aac 0 350) media_world movie_mkv
       = Some hevc_1080_aac_info
     ∧ VideoConverter.is_compatible hevc_converter hevc_1080_aac_info
       = (false, true)
     ∧ VideoConverter.ffmpeg_command hevc_converter hevc_1080_aac_info
         false true movie_mkv movie_out
       = [Word (lit "ffmpeg"); Word (lit "-i"); File_arg movie_mkv;
          Word (lit "-y");
          Word (lit "-c:v"); Word (lit "libx264"); Word (lit "-preset");
          Word (lit "medium"); Word (lit "-crf"); Word (lit "23");
          Word (lit "-c:a"); Word (lit "copy"); File_arg movie_out]
     ∧ VideoConverter.convert_video hevc_converter
         (tools_with hevc_1080_aac 0 350) media_world movie_mkv movie_out
       = (Ok true, write_file media_world movie_out 350)).
Proof.
  split.
  - split; [reflexivity|]. split; [reflexivity|]. vm_compute. reflexivity.
  - split_and!; reflexivity.
Qed.

(** C9, amended: with the flag set, a source whose two streams are both
    compatible is skipped ([convert_video] returns [False] and leaves the
    filesystem alone); when exactly one stream is compatible the command
    copies that stream and transcodes the other (the video to [libx264],
    scaled down when it is higher than the maximum; the audio to [aac] at
    192k), and a zero exit of that command makes [convert_video] return
    [True].  The video stream is compatible when the source has one whose
    codec is h264 or avc, whatever video codec is configured, and whose
    height is within the configured maximum; the audio stream when the
    source has one whose codec is the configured audio codec. *)
Theorem convert_video_copy_if_compatible
    (conv : VideoConverter.t) (tools : Tools) (w : World)
    (input_path output_path : Path) (info : VideoInfo.t) :
  VideoConverter.get_video_info conv tools w input_path = Some info →
  VideoConverter.copy_if_compatible conv = true →
  let video_compat : Prop :=
    VideoInfo.has_video info = true
    ∧ (VideoInfo.video_codec info = lit "h264"
       ∨ VideoInfo.video_codec info = lit "avc")
    ∧ (VideoInfo.video_height info ≤ VideoConverter.max_resolution conv)%Z in
  let audio_compat : Prop :=
    VideoInfo.has_audio info = true
    ∧ VideoInfo.audio_codec info = VideoConverter.audio_codec conv in
  let start := [Word (lit "ffmpeg"); Word (lit "-i"); File_arg input_path;
                Word (lit "-y")] in
  let transcode_video :=
    [Word (lit "-c:v"); Word (lit "libx264"); Word (lit "-preset");
     Word (lit "medium"); Word (lit "-crf"); Word (lit "23")]
    ++ (if (VideoConverter.max_resolution conv <? VideoInfo.video_height info)%Z
        then [Word (lit "-vf"); Scale (VideoConverter.max_resolution conv)]
        else []) in
  (video_compat → audio_compat →
   VideoConverter.convert_video conv tools w input_path output_path
   = (Ok false, w))
  ∧ (video_compat → ¬ audio_compat →
     ∀ out w1,
       ffmpeg tools w
         (start ++ [Word (lit "-c:v"); Word (lit "copy");
                    Word (lit "-c:a"); Word (lit "aac");
                    Word (lit "-b:a"); Word (lit "192k");
                    File_arg output_path]) = (Exited 0 out, w1) →
       VideoConverter.convert_video conv tools w input_path output_path
       = (Ok true, w1))
  ∧ (¬ video_compat → audio_compat →
     ∀ out w1,
       ffmpeg tools w
         (start ++ transcode_video
                ++ [Word (lit "-c:a"); Word (lit "copy");
                    File_arg output_path]) = (Exited 0 out, w1) →
       VideoConverter.convert_video conv tools w input_path output_path
       = (Ok true, w1)).
Proof.
  intros Hinfo Hcopy video_compat audio_compat start transcode_video.
  unfold VideoConverter.convert_video. rewrite Hinfo, Hcopy.
  destruct (is_compatible_spec conv info) as [Hv Ha].
  fold video_compat in Hv. fold audio_compat in Ha.
  destruct (VideoConverter.is_compatible conv info) as [vc ac].
  cbn [fst snd] in Hv, Ha.
  assert (Hvc : ¬ video_compat → vc = false).
  { intros Hn. destruct vc; [|done]. destruct Hn. by apply Hv. }
  assert (Hac : ¬ audio_compat → ac = false).
  { intros Hn. destruct ac; [|done]. destruct Hn. by apply Ha. }
  subst start transcode_video. simpl.
  split_and!.
  - intros Hvt Hat. apply Hv in Hvt as ->. by apply Ha in Hat as ->.
  - intros Hvt Haf out w1 Hrun. apply Hv in Hvt as ->. apply Hac in Haf as ->.
    simpl. unfold VideoConverter.ffmpeg_command. rewrite Hcopy. simpl.
    simpl in Hrun. by rewrite Hrun.
  - intros Hvf Hat out w1 Hrun. apply Hvc in Hvf as ->. apply Ha in Hat as ->.
    simpl. unfold VideoConverter.ffmpeg_command. rewrite Hcopy. simpl.
    destruct (VideoConverter.max_resolution conv <? VideoInfo.video_height info)%Z;
      simpl in *; by rewrite Hrun.
Qed.

Lemma convert_video_copy_if_compatible_witness :
  VideoConverter.get_video_info the_converter (tools_with hevc_2160_aac 0 350)
    media_world movie_mkv = Some hevc_2160_aac_info
  ∧ VideoConverter.copy_if_compatible the_converter = true
  ∧ VideoConverter.convert_video the_converter (tools_with hevc_2160_aac 0 350)
      media_world movie_mkv movie_out
    = (Ok true, write_file media_world movie_out 350).
Proof.
  split; [reflexivity|]. split; [reflexivity|].
  destruct (convert_video_copy_if_compatible the_converter
              (tools_with hevc_2160_aac 0 350) media_world movie_mkv movie_out
              hevc_2160_aac_info) as (_ & _ & H).
  - reflexivity.
  - reflexivity.
  - apply H with (out := ()).
    + intros (_ & [E|E] & _); discriminate E.
    + split; reflexivity.
    + reflexivity.
Defined.

(** ** Admission control in the worker loop *)

Lemma rejected_cons (ev : event) (evs : list event) :
  rejected (ev :: evs) = rejected [ev] ++ rejected evs.
Proof. unfold rejected. simpl. by rewrite app_nil_r. Qed.

Lemma step_deferred (self : EncodingWorker.t) (env : Env) (p : Path)
    (rest : list Path) (w : World) :
  denies self env →
  FileScanner.should_process (EncodingWorker.scanner self) w p = Ok true →
  ∃ why, EncodingWorker.step self env (p :: rest, w)
         = (rest ++ [p], w, Deferred p why).
Proof.
  unfold denies. intros Hd Hp. unfold EncodingWorker.step. rewrite Hp.
  destruct (PerformanceMonitor.can_encode _ _) as [can why].
  simpl in Hd. subst can. by exists why.
Qed.

(** Under a refusing monitor a turn of the loop leaves the filesystem
    alone, and the queue it leaves, with the item it may have given up,
    is a rearrangement of the queue it found. *)
Lemma step_denied (self : EncodingWorker.t) (env : Env) (q : list Path)
    (w : World) :
  denies self env →
  ∃ q' ev,
    EncodingWorker.step self env (q, w) = (q', w, ev)
    ∧ q' ++ rejected [ev] ≡ₚ q
    ∧ (∀ p, ev ≠ Completed p ∧ ev ≠ Failed p)
    ∧ (∀ p, p ∈ rejected [ev] →
         FileScanner.should_process (EncodingWorker.scanner self) w p ≠ Ok true).
Proof.
  unfold denies. intros Hd. destruct q as [|p rest].
  - exists [], QueueEmpty. split_and!; try done.
    intros p Hp. by apply elem_of_nil in Hp.
  - unfold EncodingWorker.step.
    destruct (FileScanner.should_process _ w p) as [[|]|e] eqn:Hp.
    + destruct (PerformanceMonitor.can_encode _ _) as [can why].
      simpl in Hd. subst can. exists (rest ++ [p]), (Deferred p why).
      split_and!; try done.
      * simpl. rewrite app_nil_r. by rewrite Permutation_app_comm.
      * intros p' Hp'. by apply elem_of_nil in Hp'.
    + exists rest, (Skipped p). split_and!; try done.
      * simpl. by rewrite Permutation_app_comm.
      * intros p' Hp'. apply list_elem_of_singleton in Hp' as ->. by rewrite Hp.
    + exists rest, (Errored p e). split_and!; try done.
      * simpl. by rewrite Permutation_app_comm.
      * intros p' Hp'. apply list_elem_of_singleton in Hp' as ->. by rewrite Hp.
Qed.

(** C3: while admission is denied, an item that reaches the admission
    check goes back to the tail of the queue, the queue keeps every item
    except those [should_process] itself turned down, no encode is started,
    and an item that still qualifies is still in the queue afterwards. *)
Theorem admission_denial_keeps_work_items
    (self : EncodingWorker.t) (envs : list Env) (q : list Path) (w : World) :
  Forall (denies self) envs →
  let '(q', w', evs) := EncodingWorker.run self envs (q, w) in
  w' = w
  ∧ q' ++ rejected evs ≡ₚ q
  ∧ Forall (λ ev, ∀ p, ev ≠ Completed p ∧ ev ≠ Failed p) evs
  ∧ (∀ p, p ∈ q →
       FileScanner.should_process (EncodingWorker.scanner self) w p = Ok true →
       p ∈ q')
  ∧ (∀ env p rest,
       denies self env →
       FileScanner.should_process (EncodingWorker.scanner self) w p = Ok true →
       (EncodingWorker.step self env (p :: rest, w)).1 = (rest ++ [p], w)).
Proof.
  intros Hd.
  assert (Hrun : ∀ q' w' evs, EncodingWorker.run self envs (q, w) = (q', w', evs) →
            w' = w ∧ q' ++ rejected evs ≡ₚ q
            ∧ Forall (λ ev, ∀ p, ev ≠ Completed p ∧ ev ≠ Failed p) evs
            ∧ (∀ p, p ∈ rejected evs →
                 FileScanner.should_process (EncodingWorker.scanner self) w p
                 ≠ Ok true)).
  { revert q. induction Hd as [|env envs Henv Hd IH]; intros q q' w' evs;
      cbn [EncodingWorker.run].
    - intros [= <- <- <-]. split_and!; try done.
      + simpl. by rewrite app_nil_r.
      + intros p Hp. by apply elem_of_nil in Hp.
    - destruct (shutdown env).
      + intros [= <- <- <-]. split_and!; try done.
        * simpl. by rewrite app_nil_r.
        * intros p Hp. by apply elem_of_nil in Hp.
      + destruct (step_denied self env q w Henv) as (q1 & ev & Hs & Hperm & Hev & Hrej).
        rewrite Hs.
        destruct (EncodingWorker.run self envs (q1, w)) as [[q2 w2] evs2] eqn:Hr.
        intros [= <- <- <-].
        destruct (IH q1 q2 w2 evs2 Hr) as (-> & Hperm2 & Hevs & Hrej2).
        split_and!; try done.
        * rewrite rejected_cons.
          rewrite <- Hperm, <- Hperm2.
          rewrite <- !app_assoc. apply Permutation_app_head.
          apply Permutation_app_comm.
        * by constructor.
        * intros p Hp.
          rewrite rejected_cons in Hp.
          apply elem_of_app in Hp as [Hp|Hp]; [by apply Hrej | by apply Hrej2]. }
  destruct (EncodingWorker.run self envs (q, w)) as [[q' w'] evs] eqn:Hr.
  destruct (Hrun q' w' evs eq_refl) as (-> & Hperm & Hevs & Hrej).
  split_and!; try done.
  - intros p Hp Hok.
    rewrite <- Hperm in Hp. apply elem_of_app in Hp as [Hp|Hp]; [done|].
    by apply Hrej in Hp.
  - intros env p rest Henv Hok.
    destruct (step_deferred self env p rest w Henv Hok) as [why ->]. done.
Qed.

Lemma admission_denial_keeps_work_items_witness :
  Forall (denies the_worker) [busy; busy; busy]
  ∧ movie_mkv ∈ (EncodingWorker.run the_worker [busy; busy; busy]
                   ([movie_mkv], media_world)).1.1.
Proof.
  assert (Hd : Forall (denies the_worker) [busy; busy; busy])
    by (repeat constructor).
  split; [exact Hd|].
  pose proof (admission_denial_keeps_work_items the_worker [busy; busy; busy]
                [movie_mkv] media_world Hd) as H.
  destruct (EncodingWorker.run the_worker [busy; busy; busy]
              ([movie_mkv], media_world)) as [[q' w'] evs].
  destruct H as (_ & _ & _ & H & _). apply H.
  - by left.
  - by vm_compute.
Defined.

(** ** Encode failures *)

Lemma remove_partial_removable (w : World) (p : Path) :
  removable w p = true →
  ∃ w', VideoConverter.remove_partial w p = (Ok false, w')
        ∧ entries w' !! p = None
        ∧ ∀ q, q ≠ p → entries w' !! q = entries w !! q.
Proof.
  unfold removable, VideoConverter.remove_partial, path_exists, os_stat, unlink.
  intros H. apply andb_true_iff in H as [Hs H].
  apply negb_true_iff in Hs. rewrite Hs.
  destruct (entries w !! p) as [e|] eqn:He; simpl.
  - apply andb_true_iff in H as [Hd Hu].
    apply negb_true_iff in Hd. apply negb_true_iff in Hu. rewrite Hu, Hd.
    eexists. split; [done|]. simpl. split.
    + apply lookup_delete_eq.
    + intros q Hq. by apply lookup_delete_ne.
  - exists w. done.
Qed.

(** C6: the failure path can itself fail.  Here [ffmpeg] exits with an
    error after writing part of the output, and the output cannot be
    removed: the removal raises inside [convert_video], which raises
    instead of returning [False], and the partial output stays.  The
    worker drops the item, and the file left behind makes the source
    ineligible from then on. *)
Lemma convert_video_raises_when_output_locked :
  VideoConverter.convert_video the_converter (tools_with hevc_2160_aac 1 120)
    locked_world movie_mkv movie_out
  = (Raise PermissionError, write_file locked_world movie_out 120)
  ∧ entries (write_file locked_world movie_out 120) !! movie_out
    = Some (file 120)
  ∧ EncodingWorker.step the_worker (idle (tools_with hevc_2160_aac 1 120))
      ([movie_mkv], locked_world)
    = ([], write_file locked_world movie_out 120,
       Errored movie_mkv PermissionError)
  ∧ FileScanner.should_process the_scanner
      (write_file locked_world movie_out 120) movie_mkv = Ok false.
Proof.
  split; [reflexivity|]. split; [vm_compute; reflexivity|].
  split; [reflexivity|]. vm_compute. reflexivity.
Qed.

(** X30: a failed probe makes [convert_video] return [False] with the
    filesystem untouched; a failed [ffmpeg] run (a non-zero exit, a
    timeout or any other exception) makes it return [False] with the
    output path removed and nothing else changed, provided the output can
    be removed; and whenever [convert_video] does not return [True], also
    when it raises, the worker drops the item without putting it back. *)
Theorem encode_failure_drops_item
    (self : EncodingWorker.t) (env : Env) (w : World)
    (file_path : Path) (rest : list Path) :
  let conv := EncodingWorker.converter self in
  let output_path :=
    FileScanner.get_output_path (EncodingWorker.scanner self) file_path in
  let r := VideoConverter.convert_video conv (tools env) w file_path output_path in
  (VideoConverter.get_video_info conv (tools env) w file_path = None →
   r = (Ok false, w))
  ∧ (∀ info run w1,
       VideoConverter.get_video_info conv (tools env) w file_path = Some info →
       VideoConverter.copy_if_compatible conv
       && (VideoConverter.is_compatible conv info).1
       && (VideoConverter.is_compatible conv info).2 = false →
       ffmpeg (tools env) w
         (VideoConverter.ffmpeg_command conv info
            (VideoConverter.is_compatible conv info).1
            (VideoConverter.is_compatible conv info).2
            file_path output_path) = (run, w1) →
       (∀ out, run ≠ Exited 0 out) →
       removable w1 output_path = true →
       r.1 = Ok false
       ∧ entries r.2 !! output_path = None
       ∧ ∀ q, q ≠ output_path → entries r.2 !! q = entries w1 !! q)
  ∧ (FileScanner.should_process (EncodingWorker.scanner self) w file_path
     = Ok true →
     ¬ denies self env →
     r.1 ≠ Ok true →
     ∃ ev, EncodingWorker.step self env (file_path :: rest, w) = (rest, r.2, ev)
           ∧ (ev = Failed file_path ∨ ∃ e, ev = Errored file_path e)).
Proof.
  intros conv output_path r. split_and!.
  - intros Hp. subst r. unfold VideoConverter.convert_video. by rewrite Hp.
  - intros info run w1 Hp Hskip Hrun Hfail Hrem.
    subst r. unfold VideoConverter.convert_video. rewrite Hp.
    destruct (VideoConverter.is_compatible conv info) as [vc ac].
    simpl in Hskip, Hrun. rewrite Hskip, Hrun.
    destruct (remove_partial_removable w1 output_path Hrem) as (w2 & Hr & Hgone & Hrest).
    destruct run as [rc out|e].
    + destruct (bool_decide (rc ≠ 0%Z)) eqn:Hrc.
      * rewrite Hr. done.
      * apply bool_decide_eq_false in Hrc.
        assert (rc = 0%Z) as -> by (destruct (decide (rc = 0%Z)); done).
        by destruct (Hfail out).
    + destruct (bool_decide (e = TimeoutExpired)); rewrite Hr; done.
  - intros Hok Hadm Hr. unfold EncodingWorker.step. rewrite Hok.
    unfold denies in Hadm.
    destruct (PerformanceMonitor.can_encode _ _) as [can why].
    simpl in Hadm. destruct can; [|done]. simpl.
    fold conv output_path r.
    destruct r as [[[|]|e] w'] eqn:Er; simpl in *.
    + done.
    + exists (Failed file_path). split; [done | by left].
    + exists (Errored file_path e). split; [done | right; by exists e].
Qed.

(** ** Eligibility *)

Lemma tree_shaped_parent (w : World) (p : Path) :
  tree_shaped w = true → is_Some (entries w !! p) → p ≠ [] →
  ∃ e, entries w !! parent p = Some e ∧ is_dir e = true.
Proof.
  unfold tree_shaped. rewrite forallb_forall. intros Ht [e He] Hp.
  specialize (Ht (p, e)). simpl in Ht.
  assert (In (p, e) (map_to_list (entries w))) as Hin.
  { apply list_elem_of_In. by apply elem_of_map_to_list. }
  apply Ht in Hin. apply orb_true_iff in Hin as [Hin|Hin].
  - by apply bool_decide_eq_true in Hin.
  - destruct (entries w !! parent p) as [e'|]; [|done]. by exists e'.
Qed.

Lemma length_pos_elem {A} (l : list A) : (0 <? length l) = true ↔ ∃ x, x ∈ l.
Proof.
  destruct l as [|x l]; simpl.
  - split; [done|]. intros [x Hx]. by apply elem_of_nil in Hx.
  - split; [|done]. intros _. exists x. by left.
Qed.

(** What [has_output_file] answers when the pattern is accepted and the
    operating system raises no error. *)
Lemma has_output_file_spec (sc : FileScanner.t) (w : World) (p : Path) :
  contains (output_pattern sc p) (lit "**") = false →
  stat_denied w (parent p) = false → list_denied w (parent p) = false →
  ∃ b : bool,
    FileScanner.has_output_file sc w p = Ok b
    ∧ (b = true ↔ (∃ e, entries w !! parent p = Some e ∧ is_dir e = true)
                  ∧ ∃ q, derivative_entry sc w p q).
Proof.
  intros Hpat Hs Hl.
  unfold FileScanner.has_output_file, glob. fold (output_pattern sc p).
  rewrite Hpat.
  rewrite bool_decide_eq_false_2.
  2:{ unfold output_pattern. intros H. apply (f_equal length) in H.
      rewrite !length_app in H. simpl in H. lia. }
  unfold path_is_dir, os_stat, scandir. rewrite Hs, Hl.
  destruct (entries w !! parent p) as [e|] eqn:He; simpl.
  2:{ exists false. split; [done|]. split; [done|]. by intros [[e [? _]] _]. }
  destruct (is_dir e) eqn:Hd; simpl.
  2:{ exists false. split; [done|]. split; [done|].
      intros [[e' [[= <-] Hd']] _]. congruence. }
  eexists. split; [reflexivity|]. rewrite length_pos_elem. split.
  - intros [x Hx]. split; [by exists e|].
    apply list_elem_of_fmap in Hx as ([n en] & -> & Hx).
    apply list_elem_of_filter in Hx as [Hm Hx]. simpl in Hm.
    apply list_elem_of_fmap in Hx as ([q eq] & [= -> ->] & Hx).
    apply list_elem_of_filter in Hx as [Hc Hx]. simpl in Hc.
    apply elem_of_map_to_list in Hx. exists q. split_and!; [by exists eq | done..].
  - intros [_ (q & [eq Hq] & Hc & Hm)]. exists (parent p ++ [name q]).
    apply list_elem_of_fmap. exists (name q, eq). split; [done|].
    apply list_elem_of_filter. split; [done|].
    apply list_elem_of_fmap. exists (q, eq). split; [done|].
    apply list_elem_of_filter. split; [done|]. by apply elem_of_map_to_list.
Qed.


(** C2 as stated fails: a path with a recognized extension, without the
    marker and without any matching entry in its directory, is still not
    eligible when the path itself does not exist. *)
Lemma should_process_false_without_derivative :
  FileScanner.is_video_file the_scanner ghost_mkv = true
  ∧ FileScanner.is_already_processed the_scanner ghost_mkv = false
  ∧ (¬ ∃ q, derivative_entry the_scanner media_world ghost_mkv q)
  ∧ FileScanner.should_process the_scanner media_world ghost_mkv = Ok false.
Proof.
  split; [vm_compute; reflexivity|].
  split; [vm_compute; reflexivity|].
  split; [|vm_compute; reflexivity].
  destruct (has_output_file_spec the_scanner media_world ghost_mkv)
    as (b & Hb & Hspec); [vm_compute; reflexivity..|].
  assert (FileScanner.has_output_file the_scanner media_world ghost_mkv = Ok false)
    as Hf by (vm_compute; reflexivity).
  rewrite Hf in Hb. injection Hb as <-.
  intros Hq. assert (false = true) as Habs; [|discriminate Habs].
  apply Hspec. split; [|exact Hq]. exists directory.
  split; vm_compute; reflexivity.
Qed.

(** C2, amended: for a path with a recognized extension whose stem does
    not end with the marker, on a filesystem that answers without error
    and with a stem that holds no two stars in a row, [should_process]
    returns true exactly when the path itself exists and no entry of its
    directory, file or directory, matches stem + marker + [.*]. *)
Theorem should_process_iff (sc : FileScanner.t) (w : World) (p : Path) :
  FileScanner.is_video_file sc p = true →
  FileScanner.is_already_processed sc p = false →
  p ≠ [] →
  contains (output_pattern sc p) (lit "**") = false →
  reachable w p →
  tree_shaped w = true →
  FileScanner.should_process sc w p = Ok true
  ↔ is_Some (entries w !! p) ∧ ¬ ∃ q, derivative_entry sc w p q.
Proof.
  intros Hv Hproc Hp Hpat (Hs & Hsp & Hl) Ht.
  destruct (has_output_file_spec sc w p Hpat Hsp Hl) as (b & Hb & Hspec).
  unfold FileScanner.should_process. rewrite Hv, Hproc, Hb. simpl.
  unfold path_exists, os_stat. rewrite Hs.
  destruct (entries w !! p) as [e|] eqn:He; simpl.
  - destruct (tree_shaped_parent w p Ht) as (e' & He' & Hd'); [by exists e | done |].
    destruct b.
    + split; [done|]. intros [_ Hn]. exfalso. apply Hn. by apply Hspec.
    + split; [|done]. intros _. split; [by exists e|].
      intros Hq. assert (false = true); [|done]. apply Hspec. split; [|done].
      by exists e'.
  - split.
    + by destruct b.
    + by intros [[? ?] _].
Qed.

Lemma should_process_iff_witness :
  FileScanner.is_video_file the_scanner movie_mkv = true
  ∧ FileScanner.is_already_processed the_scanner movie_mkv = false
  ∧ movie_mkv ≠ []
  ∧ contains (output_pattern the_scanner movie_mkv) (lit "**") = false
  ∧ reachable media_world movie_mkv
  ∧ tree_shaped media_world = true
  ∧ (FileScanner.should_process the_scanner media_world movie_mkv = Ok true
     ↔ is_Some (entries media_world !! movie_mkv)
       ∧ ¬ ∃ q, derivative_entry the_scanner media_world movie_mkv q).
Proof.
  split_and!; try by vm_compute.
  apply (should_process_iff the_scanner media_world movie_mkv); by vm_compute.
Defined.

(** ** Eligibility after an encode *)

Lemma translate_from_app (a b : str) :
  "["%char ∉ a →
  translate_from 0 (a ++ b) = translate_from 0 a ++ translate_from 0 b.
Proof.
  induction a as [|c a IH]; intros Ha; [done|].
  assert (c ≠ "["%char) as Hc by (intros ->; apply Ha; by left).
  assert ("["%char ∉ a) as Ha' by (intros ?; apply Ha; by right).
  simpl. apply Ascii.eqb_neq in Hc. rewrite Hc.
  destruct (Ascii.eqb c "*"); [by rewrite IH|].
  destruct (Ascii.eqb c "?"); by rewrite IH.
Qed.

Lemma tokens_match_star_all (s : str) : tokens_match [Star] s = true.
Proof.
  induction s as [|c s IH]; [done|].
  simpl in *. by rewrite IH.
Qed.

Lemma tokens_match_star_one (ts : list tok) (c : ascii) (s : str) :
  tokens_match ts s = true → tokens_match (Star :: ts) (c :: s) = true.
Proof.
  intros H. simpl. destruct (tokens_match ts (c :: s)); [done|]. simpl.
  destruct s; simpl in *; by rewrite H.
Qed.

(** A text without an opening bracket, read as a pattern, matches itself. *)
Lemma tokens_match_self (a : str) (ts : list tok) (s : str) :
  "["%char ∉ a → tokens_match ts s = true →
  tokens_match (translate_from 0 a ++ ts) (a ++ s) = true.
Proof.
  induction a as [|c a IH]; intros Ha Hs; [done|].
  assert (c ≠ "["%char) as Hc by (intros ->; apply Ha; by left).
  assert ("["%char ∉ a) as Ha' by (intros ?; apply Ha; by right).
  specialize (IH Ha' Hs).
  cbn [translate_from app]. apply Ascii.eqb_neq in Hc. rewrite Hc.
  destruct (Ascii.eqb c "*") eqn:E1.
  { by apply tokens_match_star_one. }
  destruct (Ascii.eqb c "?") eqn:E2; [done|].
  cbn [app tokens_match]. by rewrite Ascii.eqb_refl.
Qed.

Lemma fnmatch_derivative_name (a e : str) :
  "["%char ∉ a → fnmatch (a ++ dot :: e) (a ++ lit ".*") = true.
Proof.
  intros Ha. unfold fnmatch, translate. rewrite translate_from_app by done.
  apply tokens_match_self; [done|].
  change (translate_from 0 (lit ".*")) with [Lit dot; Star].
  cbn [tokens_match]. rewrite Ascii.eqb_refl. apply (tokens_match_star_all e).
Qed.

(** When the stem and the marker hold no opening bracket, the derivative
    written by a successful encode is found and the source is no longer
    eligible. *)
Lemma should_process_false_after_encode
    (sc : FileScanner.t) (w : World) (p : Path) (e : str) :
  name p ≠ [] →
  FileScanner.output_format sc = dot :: e →
  "["%char ∉ path_stem p ++ FileScanner.suffix sc →
  contains (output_pattern sc p) (lit "**") = false →
  stat_denied w (parent p) = false → list_denied w (parent p) = false →
  tree_shaped w = true →
  is_Some (entries w !! FileScanner.get_output_path sc p) →
  FileScanner.should_process sc w p = Ok false.
Proof.
  intros Hn Hf Hb Hpat Hs Hl Ht Hd.
  pose proof (path_stem_nonempty p Hn) as HS.
  assert (Hout : FileScanner.get_output_path sc p
                 = parent p ++ [(path_stem p ++ FileScanner.suffix sc) ++ dot :: e]).
  { unfold FileScanner.get_output_path. rewrite Hf, truediv_component.
    - by rewrite <- app_assoc.
    - destruct (path_stem p); simpl; done.
    - destruct (path_stem p) as [|c [|c' S']]; simpl; try done.
      destruct (FileScanner.suffix sc); simpl; done. }
  rewrite Hout in Hd.
  destruct (has_output_file_spec sc w p Hpat Hs Hl) as (b & Hb' & Hspec).
  assert (b = true) as ->.
  { apply Hspec. split.
    - destruct (tree_shaped_parent w _ Ht Hd) as (e' & He' & Hd').
      + by destruct (parent p).
      + rewrite parent_snoc in He'. by exists e'.
    - eexists. split_and!; [exact Hd | |].
      + unfold child_of. rewrite name_snoc.
        rewrite bool_decide_eq_true_2 by done. simpl.
        unfold valid_name. rewrite !bool_decide_eq_false_2; [done | |].
        * destruct (path_stem p) as [|c [|c' S']]; simpl; try done.
          destruct (FileScanner.suffix sc); simpl; done.
        * destruct (path_stem p); simpl; done.
      + rewrite name_snoc. unfold output_pattern. rewrite app_assoc.
        by apply fnmatch_derivative_name. }
  unfold FileScanner.should_process. rewrite Hb'. simpl.
  destruct (negb (FileScanner.is_video_file sc p)); [done|].
  by destruct (FileScanner.is_already_processed sc p).
Qed.

(** C1 fails on the code for a stem with a bracketed class: the worker
    encodes [movie[1].mkv], the derivative [movie[1]-PengyStream.mp4] is on
    disk, and [should_process] still answers true, because the pattern
    [movie[1]-PengyStream.*] reads [[1]] as a class and matches the name
    [movie1-PengyStream.mp4] only. *)
Theorem should_process_true_after_encode_of_bracket_stem :
  let t := tools_with hevc_2160_aac 0 350 in
  let d := FileScanner.get_output_path the_scanner bracket_mkv in
  let w' := write_file bracket_world d 350 in
  d = [lit "media"; lit "movie[1]-PengyStream.mp4"]
  ∧ EncodingWorker.step the_worker (idle t) ([bracket_mkv], bracket_world)
    = ([], w', Completed bracket_mkv)
  ∧ entries w' !! d = Some (file 350)
  ∧ FileScanner.has_output_file the_scanner w' bracket_mkv = Ok false
  ∧ FileScanner.should_process the_scanner w' bracket_mkv = Ok true.
Proof.
  intros t d w'. split; [vm_compute; reflexivity|].
  split; [reflexivity|].
  split; [vm_compute; reflexivity|].
  split; vm_compute; reflexivity.
Qed.

(** ** Loops that collect *)

Lemma bind_Ok {A B} (a : A) (k : A → result B) : Ok a ≫= k = k a.
Proof. reflexivity. Qed.

Lemma bind_Raise {A B} (e : exn) (k : A → result B) : Raise e ≫= k = Raise e.
Proof. reflexivity. Qed.

Section collect.
Context {X : Type} (sel : X → result bool).

(** The shape the inner loops of [scan_folder] and [find_orphaned_files]
    have: keep [x] when [sel x] says so, stop when it raises. *)
Lemma for_each_collect_ok (xs acc : list X) :
  (∀ x, x ∈ xs → ∃ b, sel x = Ok b) →
  for_each xs (λ acc x, sel x ≫= λ b : bool,
                        Ok (if b then acc ++ [x] else acc)) acc
  = Ok (acc ++ filter (λ x, sel x = Ok true) xs).
Proof.
  revert acc. induction xs as [|x xs IH]; intros acc Hok; cbn [for_each].
  - by rewrite app_nil_r.
  - destruct (Hok x) as [b Hb]; [by left|].
    rewrite Hb, !bind_Ok.
    rewrite IH by (intros y Hy; apply Hok; by right).
    rewrite filter_cons. destruct b.
    + rewrite decide_True by done. by rewrite <- app_assoc.
    + rewrite decide_False by (rewrite Hb; done). done.
Qed.

Lemma for_each_collect_raise (xs acc : list X) (x : X) (e : exn) :
  x ∈ xs → sel x = Raise e →
  ∃ e', for_each xs (λ acc x, sel x ≫= λ b : bool,
                              Ok (if b then acc ++ [x] else acc)) acc
        = Raise e'.
Proof.
  revert acc. induction xs as [|y xs IH]; intros acc Hx He.
  - by apply elem_of_nil in Hx.
  - cbn [for_each].
    destruct (sel y) as [b|e'] eqn:Hy; rewrite ?bind_Ok, ?bind_Raise.
    + apply elem_of_cons in Hx as [->|Hx]; [congruence|]. by apply IH.
    + by exists e'.
Qed.

End collect.

Lemma for_each_app {A S} (xs ys : list A) (body : S → A → result S) (s : S) :
  for_each (xs ++ ys) body s = for_each xs body s ≫= for_each ys body.
Proof.
  revert s. induction xs as [|x xs IH]; intros s; simpl; [done|].
  destruct (body s x); simpl; [apply IH | done].
Qed.

Lemma for_each_map {A B S} (f : A → B) (xs : list A)
    (body : S → B → result S) (s : S) :
  for_each (map f xs) body s = for_each xs (λ s x, body s (f x)) s.
Proof.
  revert s. induction xs as [|x xs IH]; intros s; simpl; [done|].
  destruct (body s (f x)); simpl; [apply IH | done].
Qed.

(** The nested loops over the steps of the walk and over the file names
    of each step are one loop over the walked paths. *)
Lemma for_each_walk {S} (w : World) (folder : Path)
    (inner : Path → S → str → result S) (body : S → Path → result S) (s : S) :
  (∀ root s file, inner root s file = body s (truediv root file)) →
  for_each (os_walk w folder)
           (λ acc step, let '(root, _, files) := step in
                        for_each files (inner root) acc) s
  = for_each (walk_files w folder) body s.
Proof.
  intros Hb. unfold walk_files.
  generalize (os_walk w folder) as steps. intros steps. revert s.
  induction steps as [|[[root dirs] files] steps IH]; intros s; simpl; [done|].
  rewrite for_each_app, for_each_map.
  assert (for_each files (inner root) s
          = for_each files (λ s x, body s (truediv root x)) s) as ->.
  { clear IH. revert s. induction files as [|f files IHf]; intros s; simpl; [done|].
    rewrite Hb. destruct (body s (truediv root f)); simpl; [apply IHf | done]. }
  destruct (for_each files _ s); simpl; [apply IH | done].
Qed.

Lemma scan_walk_collect (sc : FileScanner.t) (w : World) (folder : Path) :
  FileScanner.scan_walk sc w folder
  = for_each (walk_files w folder)
             (λ acc f, candidate_check sc w f ≫= λ b : bool,
                       Ok (if b then acc ++ [f] else acc)) [].
Proof.
  unfold FileScanner.scan_walk. apply for_each_walk.
  intros root acc file. unfold FileScanner.scan_file, candidate_check.
  destruct (negb (FileScanner.is_video_file sc _)); [done|].
  destruct (FileScanner.is_already_processed sc _); [done|].
  destruct (FileScanner.has_output_file sc w _) as [[|]|e]; done.
Qed.

Lemma orphan_walk_collect (cl : Cleanup.t) (w : World) (folder : Path) :
  Cleanup.orphan_walk cl w folder
  = for_each (walk_files w folder)
             (λ acc f, orphan_check cl w f ≫= λ b : bool,
                       Ok (if b then acc ++ [f] else acc)) [].
Proof.
  unfold Cleanup.orphan_walk. apply for_each_walk.
  intros root acc file. unfold Cleanup.check_file, orphan_check.
  destruct (negb (Cleanup.is_pengystream_file cl _)); [done|].
  destruct (path_exists w _) as [[|]|e]; done.
Qed.

(** ** The walk *)

Lemma walk_descends_last (w : World) (top : Path) (rel : list str) :
  walk_descends w top rel = true → listable w (top ++ rel) = true.
Proof.
  revert top. induction rel as [|c rel IH]; intros top; simpl.
  - rewrite app_nil_r. by intros ?%andb_true_iff%proj1.
  - intros (_ & (_ & H)%andb_true_iff)%andb_true_iff.
    apply IH in H. by rewrite <- app_assoc in H.
Qed.

Lemma walk_descends_app (w : World) (top : Path) (r1 r2 : list str) :
  walk_descends w top (r1 ++ r2) = true → listable w (top ++ r1) = true.
Proof.
  revert top. induction r1 as [|c r1 IH]; intros top; simpl.
  - rewrite app_nil_r. destruct r2; simpl; by intros ?%andb_true_iff%proj1.
  - intros (_ & (_ & H)%andb_true_iff)%andb_true_iff.
    apply IH in H. by rewrite <- app_assoc in H.
Qed.

Lemma walk_visits_listable (w : World) (top d : Path) :
  walk_visits w top d = true → listable w d = true.
Proof.
  unfold walk_visits. intros [Hp Hd]%andb_true_iff.
  apply bool_decide_eq_true in Hp. destruct Hp as [rel ->].
  rewrite drop_app_length in Hd. by apply walk_descends_last.
Qed.

Lemma listable_scandir (w : World) (d : Path) :
  listable w d = true →
  ∃ e, entries w !! d = Some e ∧ is_dir e = true ∧ list_denied w d = false
       ∧ listing w d = map (λ pe, (name pe.1, pe.2))
                           (filter (λ pe, child_of d pe.1 = true)
                                   (map_to_list (entries w))).
Proof.
  unfold listable, listing, scandir.
  destruct (list_denied w d); [done|].
  destruct (entries w !! d) as [e|]; [|done].
  destruct (is_dir e) eqn:Hd; [|done]. intros _. by exists e.
Qed.

Lemma child_of_spec (d q : Path) :
  child_of d q = true ↔ q = d ++ [name q] ∧ valid_name (name q) = true.
Proof.
  unfold child_of. rewrite andb_true_iff, bool_decide_eq_true. done.
Qed.

Lemma truediv_valid (d : Path) (c : str) :
  valid_name c = true → truediv d c = d ++ [c].
Proof.
  unfold valid_name. intros [H1 H2]%andb_true_iff.
  apply negb_true_iff, bool_decide_eq_false in H1.
  apply negb_true_iff, bool_decide_eq_false in H2.
  by apply truediv_component.
Qed.

(** The paths the walk hands to the loops are the plain files that lie in
    a directory the walk reaches. *)
Lemma walked_spec (w : World) (folder f : Path) :
  walked w folder f
  ↔ ∃ e, entries w !! f = Some e ∧ is_dir e = false
         ∧ child_of (parent f) f = true
         ∧ walk_visits w folder (parent f) = true.
Proof.
  unfold walked, walk_files, os_walk. rewrite list_elem_of_In, in_flat_map. split.
  - intros ([[d dirs] files] & Hstep & Hf).
    apply in_map_iff in Hstep as (d' & [= <- <- <-] & Hd).
    apply list_elem_of_In, list_elem_of_filter in Hd as [Hv Hd].
    destruct (listable_scandir w d' (walk_visits_listable _ _ _ Hv))
      as (ed & Hed & Hdir & Hl & Hlist).
    rewrite Hlist in Hf.
    apply in_map_iff in Hf as (c & <- & Hc).
    apply in_map_iff in Hc as ([c' ec] & <- & Hc). simpl.
    apply list_elem_of_In, list_elem_of_filter in Hc as [Hnd Hc]. simpl in Hnd.
    apply list_elem_of_fmap in Hc as ([q eq] & [= -> ->] & Hq).
    apply list_elem_of_filter in Hq as [Hch Hq]. simpl in Hch.
    apply elem_of_map_to_list in Hq.
    pose proof Hch as [Hqd Hvn]%child_of_spec.
    rewrite truediv_valid by done. rewrite <- Hqd.
    assert (parent q = d') as Hp by (rewrite Hqd; apply parent_snoc).
    exists eq. rewrite Hp. done.
  - intros (e & He & Hnd & Hch & Hv).
    pose proof Hch as [Hqd Hvn]%child_of_spec.
    destruct (listable_scandir w (parent f) (walk_visits_listable _ _ _ Hv))
      as (ed & Hed & Hdir & Hl & Hlist).
    eexists (parent f, _, _). split.
    + apply in_map_iff. exists (parent f). split; [reflexivity|].
      apply list_elem_of_In, list_elem_of_filter. split; [done|].
      apply list_elem_of_fmap. exists (parent f, ed). split; [done|].
      by apply elem_of_map_to_list.
    + apply in_map_iff. exists (name f). split.
      * rewrite truediv_valid by done. by rewrite <- Hqd.
      * apply in_map_iff. exists (name f, e). split; [done|].
        apply list_elem_of_In, list_elem_of_filter. split; [done|].
        rewrite Hlist. apply list_elem_of_fmap. exists (f, e). split; [done|].
        apply list_elem_of_filter. split; [done|]. by apply elem_of_map_to_list.
Qed.

(** ** Scanning a folder *)

Lemma for_each_collect_inv {X} (sel : X → result bool) (xs acc l : list X) :
  for_each xs (λ acc x, sel x ≫= λ b : bool,
                        Ok (if b then acc ++ [x] else acc)) acc = Ok l →
  (∀ x, x ∈ xs → ∃ b, sel x = Ok b)
  ∧ l = acc ++ filter (λ x, sel x = Ok true) xs.
Proof.
  intros H.
  assert (Hall : ∀ x, x ∈ xs → ∃ b, sel x = Ok b).
  { intros x Hx. destruct (sel x) as [b|e] eqn:Hs; [by exists b|].
    destruct (for_each_collect_raise sel xs acc x e Hx Hs) as [e' He'].
    congruence. }
  split; [done|]. rewrite for_each_collect_ok in H by done. congruence.
Qed.

Lemma candidate_check_true (sc : FileScanner.t) (w : World) (f : Path) :
  candidate_check sc w f = Ok true
  ↔ FileScanner.is_video_file sc f = true
    ∧ FileScanner.is_already_processed sc f = false
    ∧ FileScanner.has_output_file sc w f = Ok false.
Proof.
  unfold candidate_check.
  destruct (FileScanner.is_video_file sc f); simpl; [|by split; [|intros (?&?&?)]].
  destruct (FileScanner.is_already_processed sc f); [by split; [|intros (?&?&?)]|].
  destruct (FileScanner.has_output_file sc w f) as [[|]|e]; simpl.
  - split; [done | by intros (?&?&?)].
  - done.
  - split; [done | by intros (?&?&?)].
Qed.

Lemma candidate_check_raise (sc : FileScanner.t) (w : World) (f : Path) (e : exn) :
  candidate_check sc w f = Raise e
  ↔ FileScanner.is_video_file sc f = true
    ∧ FileScanner.is_already_processed sc f = false
    ∧ FileScanner.has_output_file sc w f = Raise e.
Proof.
  unfold candidate_check.
  destruct (FileScanner.is_video_file sc f); simpl; [|by split; [|intros (?&?&?)]].
  destruct (FileScanner.is_already_processed sc f); [by split; [|intros (?&?&?)]|].
  destruct (FileScanner.has_output_file sc w f) as [[|]|e']; simpl.
  - split; [done | by intros (?&?&?)].
  - split; [done | by intros (?&?&?)].
  - split; [by intros [= ->] | by intros (?&?&[= ->])].
Qed.

(** X1: an exception raised while one file is examined empties the result of
    the whole scan: the handler of [scan_folder] returns the empty list,
    whatever had been collected. *)
Theorem scan_folder_aborts_on_error
    (sc : FileScanner.t) (w : World) (folder f : Path) (e : exn) :
  walked w folder f →
  FileScanner.is_video_file sc f = true →
  FileScanner.is_already_processed sc f = false →
  FileScanner.has_output_file sc w f = Raise e →
  FileScanner.scan_folder sc w folder = [].
Proof.
  intros Hw Hv Hp Hr. unfold FileScanner.scan_folder.
  rewrite scan_walk_collect.
  destruct (for_each_collect_raise (candidate_check sc w) (walk_files w folder)
              [] f e Hw) as [e' ->]; [|done].
  by apply candidate_check_raise.
Qed.

(** When no examination raises, the candidates are exactly the walked
    files with a recognized extension, without the marker, for which
    [has_output_file] answers no. *)
Lemma scan_folder_candidates
    (sc : FileScanner.t) (w : World) (folder : Path) :
  (∀ f, walked w folder f →
        FileScanner.is_video_file sc f = true →
        FileScanner.is_already_processed sc f = false →
        ∃ b, FileScanner.has_output_file sc w f = Ok b) →
  ∀ f, f ∈ FileScanner.scan_folder sc w folder
       ↔ walked w folder f
         ∧ FileScanner.is_video_file sc f = true
         ∧ FileScanner.is_already_processed sc f = false
         ∧ FileScanner.has_output_file sc w f = Ok false.
Proof.
  intros Hok f. unfold FileScanner.scan_folder. rewrite scan_walk_collect.
  rewrite for_each_collect_ok.
  - simpl. rewrite list_elem_of_filter, candidate_check_true. unfold walked.
    naive_solver.
  - intros x Hx. unfold candidate_check.
    destruct (FileScanner.is_video_file sc x) eqn:Hv; simpl; [|by exists false].
    destruct (FileScanner.is_already_processed sc x) eqn:Hp; [by exists false|].
    destruct (Hok x Hx Hv Hp) as [b ->]. by exists (negb b).
Qed.

Lemma scan_folder_elem (sc : FileScanner.t) (w : World) (folder f : Path) :
  f ∈ FileScanner.scan_folder sc w folder →
  walked w folder f ∧ candidate_check sc w f = Ok true.
Proof.
  unfold FileScanner.scan_folder. rewrite scan_walk_collect.
  destruct (for_each _ _ _) as [l|e] eqn:Hl; [|by intros ?%elem_of_nil].
  apply for_each_collect_inv in Hl as [_ ->]. simpl.
  rewrite list_elem_of_filter. unfold walked. naive_solver.
Qed.


(** X4: nothing below a directory that cannot be listed is a candidate, and
    every candidate is a plain file below the scanned folder. *)
Theorem scan_folder_skips_unlistable
    (sc : FileScanner.t) (w : World) (folder f : Path) :
  f ∈ FileScanner.scan_folder sc w folder →
  (∃ e, entries w !! f = Some e ∧ is_dir e = false)
  ∧ folder `prefix_of` parent f
  ∧ ∀ d, folder `prefix_of` d → d `prefix_of` parent f →
         list_denied w d = false
         ∧ ∃ e, entries w !! d = Some e ∧ is_dir e = true.
Proof.
  intros [Hw _]%scan_folder_elem.
  apply walked_spec in Hw as (e & He & Hd & _ & Hv).
  split; [by exists e|].
  unfold walk_visits in Hv. apply andb_true_iff in Hv as [Hp Hv].
  apply bool_decide_eq_true in Hp. split; [done|].
  intros d [r1 ->] [r2 Hr2]. rewrite Hr2, <- app_assoc, drop_app_length in Hv.
  apply walk_descends_app in Hv.
  destruct (listable_scandir w _ Hv) as (ed & Hed & Hdir & Hl & _).
  split; [done|]. by exists ed.
Qed.

(** X2: on a filesystem where the patterns are accepted and [stat] answers,
    the candidates of [scan_folder] are exactly the walked files with a
    recognized extension, without the marker, whose directory holds no
    entry matching stem + marker + [.*]. *)
Theorem scan_folder_spec (sc : FileScanner.t) (w : World) (folder : Path) :
  (∀ f, walked w folder f →
        FileScanner.is_video_file sc f = true →
        FileScanner.is_already_processed sc f = false →
        contains (output_pattern sc f) (lit "**") = false
        ∧ stat_denied w (parent f) = false) →
  ∀ f, f ∈ FileScanner.scan_folder sc w folder
       ↔ walked w folder f
         ∧ FileScanner.is_video_file sc f = true
         ∧ FileScanner.is_already_processed sc f = false
         ∧ ¬ ∃ q, derivative_entry sc w f q.
Proof.
  intros Hok.
  assert (Hspec : ∀ f, walked w folder f →
            FileScanner.is_video_file sc f = true →
            FileScanner.is_already_processed sc f = false →
            ∃ b : bool, FileScanner.has_output_file sc w f = Ok b
                        ∧ (b = true ↔ ∃ q, derivative_entry sc w f q)).
  { intros f Hw Hv Hp. destruct (Hok f Hw Hv Hp) as [Hpat Hs].
    apply walked_spec in Hw as (e & He & Hd & Hc & Hvis).
    destruct (listable_scandir w _ (walk_visits_listable _ _ _ Hvis))
      as (ed & Hed & Hdir & Hl & _).
    destruct (has_output_file_spec sc w f Hpat Hs Hl) as (b & Hb & Hiff).
    exists b. split; [done|]. rewrite Hiff. split; [by intros [_ ?]|].
    intros Hq. split; [by exists ed | done]. }
  intros f. rewrite scan_folder_candidates.
  2:{ intros x Hx Hv Hp. destruct (Hspec x Hx Hv Hp) as (b & Hb & _). by exists b. }
  split.
  - intros (Hw & Hv & Hp & Ho). split_and!; try done.
    destruct (Hspec f Hw Hv Hp) as (b & Hb & Hiff).
    intros Hq. apply Hiff in Hq. congruence.
  - intros (Hw & Hv & Hp & Hn). split_and!; try done.
    destruct (Hspec f Hw Hv Hp) as (b & Hb & Hiff).
    destruct b; [|done]. exfalso. apply Hn. by apply Hiff.
Qed.

(** ** Orphan cleanup *)

Lemma orphan_check_true (cl : Cleanup.t) (w : World) (f : Path) :
  orphan_check cl w f = Ok true
  ↔ Cleanup.is_pengystream_file cl f = true
    ∧ path_exists w (Cleanup.get_original_path cl f) = Ok false.
Proof.
  unfold orphan_check.
  destruct (Cleanup.is_pengystream_file cl f); simpl; [|by split; [|intros [? ?]]].
  destruct (path_exists w _) as [[|]|e]; simpl; split; try done; by intros [? ?].
Qed.

Lemma find_orphaned_files_elem (cl : Cleanup.t) (w : World) (folder f : Path) :
  f ∈ Cleanup.find_orphaned_files cl w folder →
  walked w folder f ∧ orphan_check cl w f = Ok true.
Proof.
  unfold Cleanup.find_orphaned_files. rewrite orphan_walk_collect.
  destruct (for_each _ _ _) as [l|e] eqn:Hl; [|by intros ?%elem_of_nil].
  apply for_each_collect_inv in Hl as [_ ->]. simpl.
  rewrite list_elem_of_filter. unfold walked. naive_solver.
Qed.

Lemma path_exists_false (w : World) (p : Path) :
  path_exists w p = Ok false ↔ stat_denied w p = false ∧ entries w !! p = None.
Proof.
  unfold path_exists, os_stat.
  destruct (stat_denied w p); simpl; [by split; [|intros [? ?]]|].
  destruct (entries w !! p); simpl; split; try done; by intros [? ?].
Qed.

Lemma find_orphaned_files_iff (cl : Cleanup.t) (w : World) (folder : Path) :
  (∀ f, walked w folder f → Cleanup.is_pengystream_file cl f = true →
        stat_denied w (Cleanup.get_original_path cl f) = false) →
  ∀ f, f ∈ Cleanup.find_orphaned_files cl w folder
       ↔ walked w folder f
         ∧ Cleanup.is_pengystream_file cl f = true
         ∧ entries w !! Cleanup.get_original_path cl f = None.
Proof.
  intros Hok f. unfold Cleanup.find_orphaned_files. rewrite orphan_walk_collect.
  rewrite for_each_collect_ok.
  - simpl. rewrite list_elem_of_filter, orphan_check_true, path_exists_false.
    unfold walked. split; [naive_solver|].
    intros (Hw & Hp & Hn). split_and!; try done. by apply Hok.
  - intros x Hx. unfold orphan_check.
    destruct (Cleanup.is_pengystream_file cl x) eqn:Hp; simpl; [|by exists false].
    unfold path_exists, os_stat. rewrite (Hok x Hx Hp).
    destruct (entries w !! _); simpl; by eexists.
Qed.

(** X7: when [stat] answers on the presumed sources, [find_orphaned_files]
    returns exactly the walked derivatives whose presumed source is
    missing. *)
Theorem find_orphaned_files_spec (cl : Cleanup.t) (w : World) (folder : Path) :
  (∀ f, walked w folder f → Cleanup.is_pengystream_file cl f = true →
        stat_denied w (Cleanup.get_original_path cl f) = false) →
  ∀ f, f ∈ Cleanup.find_orphaned_files cl w folder
       ↔ walked w folder f
         ∧ Cleanup.is_pengystream_file cl f = true
         ∧ entries w !! Cleanup.get_original_path cl f = None.
Proof. apply find_orphaned_files_iff. Qed.

Lemma only_removes_refl (cl : Cleanup.t) (w : World) :
  only_removes_derivatives cl w w.
Proof. split_and!; try done. by left. Qed.

Lemma only_removes_trans (cl : Cleanup.t) (w1 w2 w3 : World) :
  only_removes_derivatives cl w1 w2 → only_removes_derivatives cl w2 w3 →
  only_removes_derivatives cl w1 w3.
Proof.
  intros (Hs1 & Hl1 & Hu1 & H1) (Hs2 & Hl2 & Hu2 & H2).
  split_and!; try congruence.
  intros p. destruct (H2 p) as [E2|(E2 & e & He & Hd & Hp)].
  - rewrite E2. apply H1.
  - destruct (H1 p) as [E1|(E1 & _)]; [|congruence].
    right. split; [done|]. exists e. by rewrite <- E1.
Qed.

Lemma unlink_Ok (w w' : World) (p : Path) :
  unlink w p = Ok w' →
  unlink_denied w p = false
  ∧ (∃ e, entries w !! p = Some e ∧ is_dir e = false)
  ∧ w' = mk_world (delete p (entries w)) (stat_denied w) (list_denied w)
                  (unlink_denied w).
Proof.
  unfold unlink. destruct (unlink_denied w p); [done|].
  destruct (entries w !! p) as [e|]; [|done].
  destruct (is_dir e) eqn:Hd; [done|]. intros [= <-]. split_and!; try done.
  by exists e.
Qed.

(** One turn of the deletion loop, out of dry-run mode. *)
Lemma delete_one_step (cl : Cleanup.t) (n : nat) (w : World) (f : Path) :
  Cleanup.is_pengystream_file cl f = true →
  let st := Cleanup.delete_one false (n, w) f in
  only_removes_derivatives cl w st.2
  ∧ st.1 + size (entries st.2) = n + size (entries w).
Proof.
  intros Hp. unfold Cleanup.delete_one.
  destruct (unlink w f) as [w'|e] eqn:Hu; simpl.
  2:{ split; [apply only_removes_refl | done]. }
  apply unlink_Ok in Hu as (_ & (e & He & Hd) & ->). simpl. split.
  - split_and!; try done. simpl. intros p. destruct (decide (p = f)) as [->|Hne].
    + right. rewrite lookup_delete_eq. split; [done|]. by exists e.
    + left. by apply lookup_delete_ne.
  - rewrite map_size_delete, He.
    assert (size (entries w) ≠ 0); [|lia].
    intros Hz. apply map_size_empty_inv in Hz. rewrite Hz in He.
    by rewrite lookup_empty in He.
Qed.

Lemma delete_loop_inv (cl : Cleanup.t) (l : list Path) (n : nat) (w : World) :
  Forall (λ f, Cleanup.is_pengystream_file cl f = true) l →
  let st := foldl (Cleanup.delete_one false) (n, w) l in
  only_removes_derivatives cl w st.2
  ∧ st.1 + size (entries st.2) = n + size (entries w).
Proof.
  intros Hl. revert n w. induction Hl as [|f l Hf Hl IH]; intros n w.
  - split; [apply only_removes_refl | done].
  - cbn [foldl].
    pose proof (delete_one_step cl n w f Hf) as [H1 H2].
    destruct (Cleanup.delete_one false (n, w) f) as [n1 w1]. simpl in H1, H2.
    destruct (IH n1 w1) as [H3 H4]. split.
    + by eapply only_removes_trans.
    + lia.
Qed.

Lemma find_orphaned_files_pengystream (cl : Cleanup.t) (w : World) (folder : Path) :
  Forall (λ f, Cleanup.is_pengystream_file cl f = true)
         (Cleanup.find_orphaned_files cl w folder).
Proof.
  apply Forall_forall. intros f Hf.
  apply find_orphaned_files_elem in Hf as [_ Hf].
  by apply orphan_check_true in Hf as [Hf _].
Qed.

Lemma clean_folder_step (cl : Cleanup.t) (folder : Path) (n : nat) (w : World) :
  let st := Cleanup.clean_folder cl false (n, w) folder in
  only_removes_derivatives cl w st.2
  ∧ st.1 + size (entries st.2) = n + size (entries w).
Proof.
  unfold Cleanup.clean_folder. cbn [snd].
  apply delete_loop_inv, find_orphaned_files_pengystream.
Qed.

Lemma clean_folders_inv (cl : Cleanup.t) (folders : list Path) (n : nat) (w : World) :
  let st := foldl (Cleanup.clean_folder cl false) (n, w) folders in
  only_removes_derivatives cl w st.2
  ∧ st.1 + size (entries st.2) = n + size (entries w).
Proof.
  revert n w. induction folders as [|folder folders IH]; intros n w.
  - split; [apply only_removes_refl | done].
  - cbn [foldl].
    pose proof (clean_folder_step cl folder n w) as [H1 H2].
    destruct (Cleanup.clean_folder cl false (n, w) folder) as [n1 w1].
    simpl in H1, H2. destruct (IH n1 w1) as [H3 H4]. split.
    + by eapply only_removes_trans.
    + lia.
Qed.

(** X9: out of dry-run mode, [cleanup_orphaned_files] changes the filesystem
    only by removing plain files named like derivatives: every other
    entry, and so every source and every directory, is left as it was, and
    the count it returns is the number of entries that are gone. *)
Theorem cleanup_only_removes_derivatives
    (cl : Cleanup.t) (folders : list Path) (w : World) :
  let r := Cleanup.cleanup_orphaned_files cl folders false w in
  only_removes_derivatives cl w r.2
  ∧ r.1 + size (entries r.2) = size (entries w).
Proof. apply (clean_folders_inv cl folders 0 w). Qed.

(** X10: in dry-run mode [cleanup_orphaned_files] leaves the filesystem as it
    is and returns the number of orphans its scans find. *)
Theorem cleanup_dry_run (cl : Cleanup.t) (folders : list Path) (w : World) :
  Cleanup.cleanup_orphaned_files cl folders true w
  = (length (concat (map (Cleanup.find_orphaned_files cl w) folders)), w).
Proof.
  unfold Cleanup.cleanup_orphaned_files.
  assert (Hd : ∀ l n, foldl (Cleanup.delete_one true) (n, w) l = (n + length l, w)).
  { induction l as [|f l IH]; intros n; simpl.
    - f_equal. lia.
    - rewrite IH. f_equal. lia. }
  assert (Hf : ∀ n, foldl (Cleanup.clean_folder cl true) (n, w) folders
               = (n + length (concat (map (Cleanup.find_orphaned_files cl w) folders)), w)).
  { induction folders as [|folder folders IH]; intros n; simpl.
    - f_equal. lia.
    - unfold Cleanup.clean_folder at 2. simpl. rewrite Hd, IH.
      rewrite length_app. f_equal. lia. }
  apply (Hf 0).
Qed.

Lemma listable_preserved (cl : Cleanup.t) (w w' : World) (d : Path) :
  only_removes_derivatives cl w w' → listable w' d = listable w d.
Proof.
  intros (_ & Hl & _ & H). unfold listable, scandir. rewrite Hl.
  destruct (list_denied w d); [done|].
  destruct (H d) as [->|(-> & e & -> & Hd & _)].
  - destruct (entries w !! d) as [e|]; [|done]. by destruct (is_dir e).
  - by rewrite Hd.
Qed.

Lemma walk_visits_preserved (cl : Cleanup.t) (w w' : World) (top d : Path) :
  only_removes_derivatives cl w w' → walk_visits w' top d = walk_visits w top d.
Proof.
  intros HR. unfold walk_visits. f_equal.
  generalize (drop (length top) d) as rel. intros rel. revert top.
  induction rel as [|c rel IH]; intros top; simpl;
    rewrite (listable_preserved cl w w') by done; [done|].
  by rewrite IH.
Qed.

Lemma walked_preserved (cl : Cleanup.t) (w w' : World) (folder f : Path) :
  only_removes_derivatives cl w w' →
  walked w' folder f ↔ walked w folder f ∧ is_Some (entries w' !! f).
Proof.
  intros HR. rewrite !walked_spec.
  rewrite (walk_visits_preserved cl w w') by done.
  destruct HR as (_ & _ & _ & H). split.
  - intros (e & He & Hd & Hc & Hv). split; [|by exists e].
    exists e. split_and!; try done.
    destruct (H f) as [<-|[? _]]; [done | congruence].
  - intros [(e & He & Hd & Hc & Hv) [e' He']].
    exists e. split_and!; try done.
    destruct (H f) as [->|[? _]]; [done | congruence].
Qed.

Lemma delete_loop_gone (cl : Cleanup.t) (l : list Path) (n : nat) (w : World) :
  Forall (λ f, Cleanup.is_pengystream_file cl f = true) l →
  (∀ p, unlink_denied w p = false) →
  (∀ f e, f ∈ l → entries w !! f = Some e → is_dir e = false) →
  ∀ f, f ∈ l → entries (foldl (Cleanup.delete_one false) (n, w) l).2 !! f = None.
Proof.
  intros Hl. revert n w. induction Hl as [|x l Hx Hl IH]; intros n w Hu Hfile f Hf.
  { by apply elem_of_nil in Hf. }
  cbn [foldl].
  pose proof (delete_one_step cl n w x Hx) as [HR1 _].
  assert (Hgone : entries (Cleanup.delete_one false (n, w) x).2 !! x = None).
  { unfold Cleanup.delete_one, unlink. rewrite Hu.
    destruct (entries w !! x) as [e|] eqn:He; simpl; [|done].
    rewrite (Hfile x e) by (done || by left). simpl. apply lookup_delete_eq. }
  destruct (Cleanup.delete_one false (n, w) x) as [n1 w1]. simpl in HR1, Hgone.
  pose proof (delete_loop_inv cl l n1 w1 Hl) as [HR2 _].
  destruct (decide (f = x)) as [->|Hne].
  - destruct HR2 as (_ & _ & _ & H2).
    destruct (H2 x) as [->|[-> _]]; done.
  - apply elem_of_cons in Hf as [?|Hf]; [done|].
    apply IH; [| |done].
    + destruct HR1 as (_ & _ & -> & _). done.
    + intros g e Hg He. destruct HR1 as (_ & _ & _ & H1).
      destruct (H1 g) as [E|[E _]]; [|congruence].
      apply (Hfile g e); [by right | congruence].
Qed.

Lemma no_orphans_preserved (cl : Cleanup.t) (w0 w1 w' : World) (folder : Path) :
  single_marker cl w0 →
  only_removes_derivatives cl w0 w1 → only_removes_derivatives cl w1 w' →
  no_orphans cl w1 folder → no_orphans cl w' folder.
Proof.
  intros Hsm HR1 HR2 Hno f Hw Hp.
  apply (walked_preserved cl w1 w') in Hw as [Hw1 Hf']; [|done].
  destruct (Hno f Hw1 Hp) as [eo Ho].
  destruct HR2 as (_ & _ & _ & H2).
  destruct (H2 (Cleanup.get_original_path cl f)) as [->|(_ & e & _ & _ & Hpo)].
  { by exists eo. }
  exfalso. rewrite (Hsm f) in Hpo; [done| |done].
  apply walked_spec in Hw1 as (e1 & He1 & _).
  destruct HR1 as (_ & _ & _ & H1).
  destruct (H1 f) as [<-|[? _]]; [by exists e1 | congruence].
Qed.

Lemma clean_folder_no_orphans
    (cl : Cleanup.t) (w0 w : World) (folder : Path) (n : nat) :
  (∀ p, stat_denied w p = false) → (∀ p, unlink_denied w p = false) →
  single_marker cl w0 → only_removes_derivatives cl w0 w →
  no_orphans cl (Cleanup.clean_folder cl false (n, w) folder).2 folder.
Proof.
  intros Hs Hu Hsm HR0.
  pose proof (clean_folder_step cl folder n w) as [HR _].
  unfold Cleanup.clean_folder in *. cbn [snd] in *.
  set (l := Cleanup.find_orphaned_files cl w folder) in *.
  intros f Hw Hp.
  apply (walked_preserved cl w _) in Hw as [Hw [e' Hf']]; [|done].
  destruct (entries w !! Cleanup.get_original_path cl f) as [eo|] eqn:Ho.
  - destruct HR as (_ & _ & _ & H).
    destruct (H (Cleanup.get_original_path cl f)) as [->|(_ & e & _ & _ & Hpo)].
    { rewrite Ho. by exists eo. }
    exfalso. rewrite (Hsm f) in Hpo; [done| |done].
    apply walked_spec in Hw as (e1 & He1 & _).
    destruct HR0 as (_ & _ & _ & H0).
    destruct (H0 f) as [<-|[? _]]; [by exists e1 | congruence].
  - exfalso.
    assert (f ∈ l) as Hl.
    { apply find_orphaned_files_iff; [by intros; apply Hs | done]. }
    rewrite (delete_loop_gone cl l n w) in Hf'; try done.
    + apply find_orphaned_files_pengystream.
    + intros g e Hg He. apply find_orphaned_files_elem in Hg as [Hg _].
      apply walked_spec in Hg as (e1 & He1 & Hd & _). congruence.
Qed.

Lemma clean_folders_no_orphans
    (cl : Cleanup.t) (w0 : World) (folders : list Path) (n : nat) (w : World) :
  (∀ p, stat_denied w p = false) → (∀ p, unlink_denied w p = false) →
  single_marker cl w0 → only_removes_derivatives cl w0 w →
  ∀ folder, folder ∈ folders →
    no_orphans cl (foldl (Cleanup.clean_folder cl false) (n, w) folders).2 folder.
Proof.
  revert n w. induction folders as [|x folders IH]; intros n w Hs Hu Hsm HR0 folder Hin.
  { by apply elem_of_nil in Hin. }
  cbn [foldl].
  pose proof (clean_folder_step cl x n w) as [HR1 _].
  pose proof (clean_folder_no_orphans cl w0 w x n Hs Hu Hsm HR0) as Hno.
  destruct (Cleanup.clean_folder cl false (n, w) x) as [n1 w1]. simpl in HR1, Hno.
  pose proof (only_removes_trans cl w0 w w1 HR0 HR1) as HR01.
  assert (Hs1 : ∀ p, stat_denied w1 p = false).
  { destruct HR1 as (-> & _). done. }
  assert (Hu1 : ∀ p, unlink_denied w1 p = false).
  { destruct HR1 as (_ & _ & -> & _). done. }
  destruct (decide (folder ∈ folders)) as [Hin'|Hnin].
  - by apply IH.
  - apply elem_of_cons in Hin as [->|?]; [|done].
    pose proof (clean_folders_inv cl folders n1 w1) as [HR2 _].
    by eapply no_orphans_preserved.
Qed.

Lemma no_orphans_nothing_found (cl : Cleanup.t) (w : World) (folder : Path) :
  (∀ p, stat_denied w p = false) →
  no_orphans cl w folder → Cleanup.find_orphaned_files cl w folder = [].
Proof.
  intros Hs Hno. apply elem_of_nil_inv. intros f Hf.
  apply find_orphaned_files_iff in Hf as (Hw & Hp & Hn); [|by intros; apply Hs].
  destruct (Hno f Hw Hp) as [e He]. congruence.
Qed.

Lemma clean_folders_nothing_found
    (cl : Cleanup.t) (dry_run : bool) (folders : list Path) (n : nat) (w : World) :
  (∀ folder, folder ∈ folders → Cleanup.find_orphaned_files cl w folder = []) →
  foldl (Cleanup.clean_folder cl dry_run) (n, w) folders = (n, w).
Proof.
  induction folders as [|x folders IH]; intros Hno; [done|].
  cbn [foldl]. unfold Cleanup.clean_folder at 2. cbn [snd].
  rewrite Hno by (by left). cbn [foldl]. apply IH.
  intros folder Hin. apply Hno. by right.
Qed.

(** X11: when [stat] and [unlink] are never refused and no file carries the
    marker twice, a second pass of [cleanup_orphaned_files] right after a
    first one finds no orphan in any folder, deletes nothing and returns
    0. *)
Theorem cleanup_second_pass_is_idle
    (cl : Cleanup.t) (folders : list Path) (w : World) :
  (∀ p, stat_denied w p = false) →
  (∀ p, unlink_denied w p = false) →
  single_marker cl w →
  let w1 := (Cleanup.cleanup_orphaned_files cl folders false w).2 in
  (∀ folder, folder ∈ folders → Cleanup.find_orphaned_files cl w1 folder = [])
  ∧ Cleanup.cleanup_orphaned_files cl folders false w1 = (0, w1).
Proof.
  intros Hs Hu Hsm w1.
  pose proof (clean_folders_inv cl folders 0 w) as [HR _].
  fold (Cleanup.cleanup_orphaned_files cl folders false w) in HR. fold w1 in HR.
  assert (Hs1 : ∀ p, stat_denied w1 p = false).
  { destruct HR as (-> & _). done. }
  assert (Hfound : ∀ folder, folder ∈ folders →
                     Cleanup.find_orphaned_files cl w1 folder = []).
  { intros folder Hin. apply no_orphans_nothing_found; [done|].
    apply (clean_folders_no_orphans cl w folders 0 w); try done.
    apply only_removes_refl. }
  split; [done|]. by apply clean_folders_nothing_found.
Qed.

(** ** Derivatives, seen by the scanner and by the cleanup *)

Lemma output_path_parts (sc : FileScanner.t) (e : str) (p : Path) :
  name p ≠ [] →
  FileScanner.output_format sc = dot :: e → e ≠ [] → dot ∉ e →
  let d := FileScanner.get_output_path sc p in
  d = parent p ++ [(path_stem p ++ FileScanner.suffix sc) ++ dot :: e]
  ∧ path_stem d = path_stem p ++ FileScanner.suffix sc
  ∧ path_suffix d = dot :: e.
Proof.
  intros Hn Hf He Hd d.
  pose proof (path_stem_nonempty p Hn) as HS.
  assert (Hd' : d = parent p ++ [(path_stem p ++ FileScanner.suffix sc) ++ dot :: e]).
  { subst d. unfold FileScanner.get_output_path. rewrite Hf, truediv_component.
    - by rewrite <- app_assoc.
    - destruct (path_stem p); simpl; done.
    - destruct (path_stem p) as [|c [|c' S']]; simpl; try done.
      destruct (FileScanner.suffix sc); simpl; done. }
  split; [done|]. rewrite Hd'.
  apply split_dotted_name; try done. by destruct (path_stem p).
Qed.

Lemma original_of_output_path (sc : FileScanner.t) (cl : Cleanup.t) (e : str) (p : Path) :
  name p ≠ [] →
  Cleanup.suffix cl = FileScanner.suffix sc →
  FileScanner.suffix sc ≠ [] →
  FileScanner.output_format sc = dot :: e → e ≠ [] → dot ∉ e →
  Cleanup.get_original_path cl (FileScanner.get_output_path sc p)
  = parent p ++ [path_stem p ++ dot :: e].
Proof.
  intros Hn Hs Hm Hf He Hd.
  destruct (output_path_parts sc e p Hn Hf He Hd) as (Hout & Hst & Hsu).
  unfold Cleanup.get_original_path. rewrite Hst, Hsu, Hs.
  rewrite endswith_app, slice_to_neg_app by done.
  rewrite Hout, parent_snoc. apply truediv_component.
  - pose proof (path_stem_nonempty p Hn). by destruct (path_stem p).
  - pose proof (path_stem_nonempty p Hn).
    destruct (path_stem p) as [|c [|c' S']]; simpl; done.
Qed.

Lemma output_path_marked
    (sc : FileScanner.t) (cl : Cleanup.t) (e : str) (p : Path) (w : World) :
  name p ≠ [] →
  Cleanup.suffix cl = FileScanner.suffix sc →
  FileScanner.output_format sc = dot :: e → e ≠ [] → dot ∉ e →
  let d := FileScanner.get_output_path sc p in
  FileScanner.is_already_processed sc d = true
  ∧ FileScanner.should_process sc w d = Ok false
  ∧ (lower (dot :: e) ∈ Cleanup.video_extensions cl →
     Cleanup.is_pengystream_file cl d = true).
Proof.
  intros Hn Hs Hf He Hd d.
  destruct (output_path_parts sc e p Hn Hf He Hd) as (Hout & Hst & Hsu).
  fold d in Hout, Hst, Hsu.
  assert (Hp : FileScanner.is_already_processed sc d = true).
  { unfold FileScanner.is_already_processed. rewrite Hst. apply endswith_app. }
  split_and!; [done | |].
  - unfold FileScanner.should_process. rewrite Hp.
    by destruct (negb (FileScanner.is_video_file sc d)).
  - intros Hext. unfold Cleanup.is_pengystream_file.
    rewrite Hsu, Hst, Hs, endswith_app.
    by rewrite bool_decide_eq_true_2.
Qed.

(** X6: the path [get_output_path] builds is never itself eligible: its stem
    ends with the marker, so [should_process] turns it down on every
    filesystem and the cleanup takes it for a derivative when its
    extension is a recognized one. *)
Theorem output_path_is_a_derivative
    (sc : FileScanner.t) (cl : Cleanup.t) (e : str) (p : Path) (w : World) :
  name p ≠ [] →
  Cleanup.suffix cl = FileScanner.suffix sc →
  FileScanner.output_format sc = dot :: e → e ≠ [] → dot ∉ e →
  let d := FileScanner.get_output_path sc p in
  FileScanner.is_already_processed sc d = true
  ∧ FileScanner.should_process sc w d = Ok false
  ∧ (lower (dot :: e) ∈ Cleanup.video_extensions cl →
     Cleanup.is_pengystream_file cl d = true).
Proof. apply output_path_marked. Qed.

(** X8: the presumed source of a derivative carries the extension of the
    derivative, not that of the source it was made from: when no file
    named stem + output extension lies beside it, the derivative is
    reported as an orphan, also while its real source is still there. *)
Theorem derivative_is_orphan_without_same_extension_source
    (sc : FileScanner.t) (cl : Cleanup.t) (e : str) (p folder : Path) (w : World) :
  name p ≠ [] →
  Cleanup.suffix cl = FileScanner.suffix sc →
  FileScanner.suffix sc ≠ [] →
  FileScanner.output_format sc = dot :: e → e ≠ [] → dot ∉ e →
  lower (dot :: e) ∈ Cleanup.video_extensions cl →
  (∀ q, stat_denied w q = false) →
  walked w folder (FileScanner.get_output_path sc p) →
  entries w !! (parent p ++ [path_stem p ++ dot :: e]) = None →
  FileScanner.get_output_path sc p ∈ Cleanup.find_orphaned_files cl w folder.
Proof.
  intros Hn Hs Hm Hf He Hd Hext Hstat Hw Hnone.
  apply find_orphaned_files_iff; [by intros; apply Hstat|].
  split; [done|]. split.
  - by apply (output_path_marked sc cl e p w).
  - by rewrite (original_of_output_path sc cl e p).
Qed.

Lemma walk_files_orphan_world :
  walk_files orphan_world media = [other_out; other_mkv; movie_out].
Proof. vm_compute. reflexivity. Qed.

(** ** The derivative check, whatever the extension *)

Lemma has_output_file_finds
    (sc : FileScanner.t) (w : World) (p : Path) (x : str) :
  name p ≠ [] →
  "["%char ∉ path_stem p ++ FileScanner.suffix sc →
  contains (output_pattern sc p) (lit "**") = false →
  stat_denied w (parent p) = false → list_denied w (parent p) = false →
  tree_shaped w = true →
  is_Some (entries w !! (parent p ++ [(path_stem p ++ FileScanner.suffix sc)
                                       ++ dot :: x])) →
  FileScanner.has_output_file sc w p = Ok true
  ∧ FileScanner.should_process sc w p = Ok false.
Proof.
  intros Hn Hb Hpat Hs Hl Ht Hd.
  pose proof (path_stem_nonempty p Hn) as HS.
  destruct (has_output_file_spec sc w p Hpat Hs Hl) as (b & Hb' & Hspec).
  assert (b = true) as ->.
  { apply Hspec. split.
    - destruct (tree_shaped_parent w _ Ht Hd) as (e' & He' & Hd').
      + by destruct (parent p).
      + rewrite parent_snoc in He'. by exists e'.
    - eexists. split_and!; [exact Hd | |].
      + unfold child_of. rewrite name_snoc.
        rewrite bool_decide_eq_true_2 by done. simpl.
        unfold valid_name. rewrite !bool_decide_eq_false_2; [done | |].
        * destruct (path_stem p) as [|c [|c' S']]; simpl; try done.
          destruct (FileScanner.suffix sc); simpl; done.
        * destruct (path_stem p); simpl; done.
      + rewrite name_snoc. unfold output_pattern. rewrite app_assoc.
        by apply fnmatch_derivative_name. }
  split; [done|].
  unfold FileScanner.should_process. rewrite Hb'. simpl.
  destruct (negb (FileScanner.is_video_file sc p)); [done|].
  by destruct (FileScanner.is_already_processed sc p).
Qed.

(** X5: [has_output_file] finds a sibling named stem + marker + any extension,
    so a change of the output container does not make a source eligible
    again; this needs a stem and marker without an opening bracket and
    without two stars in a row. *)
Theorem has_output_file_any_extension
    (sc : FileScanner.t) (w : World) (p : Path) (x : str) :
  name p ≠ [] →
  "["%char ∉ path_stem p ++ FileScanner.suffix sc →
  contains (output_pattern sc p) (lit "**") = false →
  stat_denied w (parent p) = false → list_denied w (parent p) = false →
  tree_shaped w = true →
  is_Some (entries w !! (parent p ++ [(path_stem p ++ FileScanner.suffix sc)
                                       ++ dot :: x])) →
  FileScanner.has_output_file sc w p = Ok true
  ∧ FileScanner.should_process sc w p = Ok false.
Proof. apply has_output_file_finds. Qed.

(** ** The converter *)

Lemma remove_partial_not_true (w w' : World) (p : Path) :
  VideoConverter.remove_partial w p ≠ (Ok true, w').
Proof.
  unfold VideoConverter.remove_partial.
  destruct (path_exists w p) as [[|]|e]; [|done..].
  by destruct (unlink w p).
Qed.

(** X14: [convert_video] returns [True] only when the probe succeeded, the
    source was not skipped, and [ffmpeg] ran on the command and exited
    with 0; the filesystem is then the one [ffmpeg] left. *)
Theorem convert_video_true_inv
    (conv : VideoConverter.t) (tools : Tools) (w w' : World)
    (input_path output_path : Path) :
  VideoConverter.convert_video conv tools w input_path output_path = (Ok true, w') →
  ∃ info out,
    VideoConverter.get_video_info conv tools w input_path = Some info
    ∧ VideoConverter.copy_if_compatible conv
      && (VideoConverter.is_compatible conv info).1
      && (VideoConverter.is_compatible conv info).2 = false
    ∧ ffmpeg tools w
        (VideoConverter.ffmpeg_command conv info
           (VideoConverter.is_compatible conv info).1
           (VideoConverter.is_compatible conv info).2
           input_path output_path) = (Exited 0 out, w').
Proof.
  unfold VideoConverter.convert_video.
  destruct (VideoConverter.get_video_info conv tools w input_path) as [info|];
    [|done].
  destruct (VideoConverter.is_compatible conv info) as [vc ac] eqn:Hc.
  cbv beta iota.
  destruct (VideoConverter.copy_if_compatible conv && vc && ac) eqn:Hskip; [done|].
  destruct (ffmpeg tools w _) as [run w1] eqn:Hrun.
  destruct run as [rc out|e].
  - destruct (bool_decide (rc ≠ 0%Z)) eqn:Hrc.
    + intros H. exfalso.
      destruct (VideoConverter.remove_partial w1 output_path) as [[b|e] w2] eqn:Hr.
      * injection H as -> ->. by apply remove_partial_not_true in Hr.
      * destruct (bool_decide (e = TimeoutExpired));
          by apply remove_partial_not_true in H.
    + apply bool_decide_eq_false in Hrc.
      assert (rc = 0%Z) as -> by (destruct (decide (rc = 0%Z)); done).
      intros [= <-]. exists info, out. rewrite Hc. simpl. split_and!; done.
  - intros H. exfalso.
    destruct (bool_decide (e = TimeoutExpired));
      by apply remove_partial_not_true in H.
Qed.

(** X13: a video stream taller than the configured maximum is never copied:
    it is not compatible, and the command transcodes it with a scale to
    the maximum height.  Conversely the command scales only to that
    height and only a stream that is taller. *)
Theorem oversize_video_is_scaled
    (conv : VideoConverter.t) (info : VideoInfo.t) (audio_compat : bool)
    (input_path output_path : Path) :
  ((VideoConverter.max_resolution conv < VideoInfo.video_height info)%Z →
   (VideoConverter.is_compatible conv info).1 = false
   ∧ Scale (VideoConverter.max_resolution conv)
     ∈ VideoConverter.ffmpeg_command conv info
         (VideoConverter.is_compatible conv info).1 audio_compat
         input_path output_path)
  ∧ ∀ video_compat h,
      Scale h ∈ VideoConverter.ffmpeg_command conv info video_compat audio_compat
                  input_path output_path →
      h = VideoConverter.max_resolution conv
      ∧ (VideoConverter.max_resolution conv < VideoInfo.video_height info)%Z.
Proof.
  split.
  - intros Hh.
    assert (Hvc : (VideoConverter.is_compatible conv info).1 = false).
    { unfold VideoConverter.is_compatible. simpl.
      replace (VideoInfo.video_height info <=? VideoConverter.max_resolution conv)%Z
        with false by (symmetry; apply Z.leb_gt; lia).
      by rewrite andb_false_r. }
    split; [done|]. rewrite Hvc. unfold VideoConverter.ffmpeg_command. simpl.
    replace (VideoConverter.max_resolution conv <? VideoInfo.video_height info)%Z
      with true by (symmetry; apply Z.ltb_lt; lia).
    destruct (audio_compat && VideoConverter.copy_if_compatible conv);
      simpl; set_solver.
  - intros vc h. unfold VideoConverter.ffmpeg_command.
    destruct (vc && VideoConverter.copy_if_compatible conv);
      destruct (audio_compat && VideoConverter.copy_if_compatible conv);
      destruct (VideoConverter.max_resolution conv <? VideoInfo.video_height info)%Z
        eqn:Hlt; simpl; intros Hin;
      repeat (apply elem_of_cons in Hin as [Hin|Hin];
              [first [discriminate Hin
                     | injection Hin as ->; split; [done | by apply Z.ltb_lt]]|]);
      by apply elem_of_nil in Hin.
Qed.

(** X15: with the copy flag off no stream is copied and no source is skipped:
    the command transcodes video and audio, also when both are already
    compatible. *)
Theorem no_copy_without_flag
    (conv : VideoConverter.t) (tools : Tools) (w w1 : World)
    (info : VideoInfo.t) (input_path output_path : Path) (out : ()) :
  VideoConverter.copy_if_compatible conv = false →
  VideoConverter.get_video_info conv tools w input_path = Some info →
  let cmd := VideoConverter.ffmpeg_command conv info
               (VideoConverter.is_compatible conv info).1
               (VideoConverter.is_compatible conv info).2
               input_path output_path in
  ffmpeg tools w cmd = (Exited 0 out, w1) →
  (Word (lit "copy") ∉ cmd)
  ∧ Word (lit "libx264") ∈ cmd
  ∧ Word (lit "aac") ∈ cmd
  ∧ VideoConverter.convert_video conv tools w input_path output_path
    = (Ok true, w1).
Proof.
  intros Hc Hi cmd Hrun. subst cmd.
  unfold VideoConverter.convert_video. rewrite Hi, Hc.
  destruct (VideoConverter.is_compatible conv info) as [vc ac]. simpl in *.
  rewrite Hrun. split_and!; [| | |done];
    unfold VideoConverter.ffmpeg_command; rewrite Hc, !andb_false_r;
    destruct (VideoConverter.max_resolution conv <? VideoInfo.video_height info)%Z;
    simpl; set_solver.
Qed.

(** ** Probing *)

Lemma read_stream_video_known (s : stream) (vc : option str) (vh : Z)
    (ac : option str) (ha : bool) :
  ∃ ac' ha', VideoConverter.read_stream (vc, vh, ac, true, ha) s
             = (vc, vh, ac', true, ha').
Proof.
  unfold VideoConverter.read_stream. rewrite andb_false_r.
  destruct (_ && negb ha); by eexists _, _.
Qed.

Lemma read_stream_no_video (s : stream) (vc : option str) (vh : Z)
    (ac : option str) (ha : bool) :
  codec_type s ≠ Some (lit "video") →
  ∃ ac' ha', VideoConverter.read_stream (vc, vh, ac, false, ha) s
             = (vc, vh, ac', false, ha').
Proof.
  intros Hno. unfold VideoConverter.read_stream.
  rewrite (bool_decide_eq_false_2 _ Hno). cbn [andb].
  destruct (_ && negb ha); by eexists _, _.
Qed.

Lemma read_stream_first_video (s : stream) (vc : option str) (vh : Z)
    (ac : option str) (ha : bool) :
  codec_type s = Some (lit "video") →
  VideoConverter.read_stream (vc, vh, ac, false, ha) s
  = (Some (lower (default [] (codec_name s))), default 0%Z (height s), ac,
     true, ha).
Proof.
  intros Hv. unfold VideoConverter.read_stream.
  by rewrite (bool_decide_eq_true_2 _ Hv).
Qed.

Lemma read_streams_video_known (l : list stream) (vc : option str) (vh : Z)
    (ac : option str) (ha : bool) :
  ∃ ac' ha', foldl VideoConverter.read_stream (vc, vh, ac, true, ha) l
             = (vc, vh, ac', true, ha').
Proof.
  revert ac ha. induction l as [|s l IH]; intros ac ha; cbn [foldl].
  - by exists ac, ha.
  - destruct (read_stream_video_known s vc vh ac ha) as (ac1 & ha1 & ->). apply IH.
Qed.

Lemma read_streams_no_video (l : list stream) (vc : option str) (vh : Z)
    (ac : option str) (ha : bool) :
  (∀ s, s ∈ l → codec_type s ≠ Some (lit "video")) →
  ∃ ac' ha', foldl VideoConverter.read_stream (vc, vh, ac, false, ha) l
             = (vc, vh, ac', false, ha').
Proof.
  revert ac ha. induction l as [|s l IH]; intros ac ha Hno; cbn [foldl].
  - by exists ac, ha.
  - destruct (read_stream_no_video s vc vh ac ha) as (ac1 & ha1 & ->).
    + apply Hno. by left.
    + apply IH. intros s' Hs'. apply Hno. by right.
Qed.

(** X12: when [ffprobe] succeeds, [get_video_info] describes the first video
    stream of the file: its codec in lower case and its height, 0 when the
    height is missing; a file without a video stream gives no codec,
    height 0 and [has_video] false. *)
Theorem get_video_info_first_video
    (conv : VideoConverter.t) (tools : Tools) (w : World) (file_path : Path)
    (streams : list stream) :
  ffprobe tools w file_path = Exited 0 (Some streams) →
  ∃ info,
    VideoConverter.get_video_info conv tools w file_path = Some info
    ∧ (∀ pre v post,
         streams = pre ++ v :: post →
         codec_type v = Some (lit "video") →
         (∀ s, s ∈ pre → codec_type s ≠ Some (lit "video")) →
         VideoInfo.has_video info = true
         ∧ VideoInfo.video_codec info = lower (default [] (codec_name v))
         ∧ VideoInfo.video_height info = default 0%Z (height v))
    ∧ ((∀ s, s ∈ streams → codec_type s ≠ Some (lit "video")) →
       VideoInfo.has_video info = false
       ∧ VideoInfo.video_codec info = []
       ∧ VideoInfo.video_height info = 0%Z).
Proof.
  intros Hp. unfold VideoConverter.get_video_info. rewrite Hp.
  rewrite bool_decide_eq_false_2 by (intros H; by apply H).
  destruct (foldl VideoConverter.read_stream (None, 0%Z, None, false, false) streams)
    as [[[[vc vh] ac] hv] ha] eqn:Hf.
  eexists. split; [reflexivity|]. simpl. split.
  - intros pre v post -> Hv Hpre. rewrite foldl_app in Hf.
    destruct (read_streams_no_video pre None 0%Z None false Hpre) as (ac1 & ha1 & E1).
    rewrite E1 in Hf. cbn [foldl] in Hf.
    rewrite (read_stream_first_video v None 0%Z ac1 ha1 Hv) in Hf.
    destruct (read_streams_video_known post
                (Some (lower (default [] (codec_name v))))
                (default 0%Z (height v)) ac1 ha1) as (ac2 & ha2 & E2).
    rewrite E2 in Hf. by injection Hf as <- <- <- <- <-.
  - intros Hno.
    destruct (read_streams_no_video streams None 0%Z None false Hno)
      as (ac1 & ha1 & E1).
    rewrite E1 in Hf. by injection Hf as <- <- <- <- <-.
Qed.

(** ** Admission *)

(** X16: [can_encode] admits exactly when both loads are within their
    thresholds; admission at some load implies admission at every lower
    load; and when the CPU is above its threshold the reason names the
    CPU, whatever the GPU does. *)
Theorem can_encode_spec (self : PerformanceMonitor.t) (u : Usage) :
  ((PerformanceMonitor.can_encode self u).1 = true
   ↔ (cpu_usage u <= PerformanceMonitor.cpu_threshold self)%Q
     ∧ (gpu_usage u <= PerformanceMonitor.gpu_threshold self)%Q)
  ∧ (∀ u', (cpu_usage u' <= cpu_usage u)%Q → (gpu_usage u' <= gpu_usage u)%Q →
           (PerformanceMonitor.can_encode self u).1 = true →
           (PerformanceMonitor.can_encode self u').1 = true)
  ∧ (¬ (cpu_usage u <= PerformanceMonitor.cpu_threshold self)%Q →
     PerformanceMonitor.can_encode self u
     = (false, CpuTooHigh (cpu_usage u) (PerformanceMonitor.cpu_threshold self))).
Proof.
  assert (Hiff : ∀ v, (PerformanceMonitor.can_encode self v).1 = true
     ↔ (cpu_usage v <= PerformanceMonitor.cpu_threshold self)%Q
       ∧ (gpu_usage v <= PerformanceMonitor.gpu_threshold self)%Q).
  { intros v. unfold PerformanceMonitor.can_encode. rewrite <- !Qle_bool_iff.
    destruct (Qle_bool (cpu_usage v) _); simpl; [|by split; [|intros [? ?]]].
    destruct (Qle_bool (gpu_usage v) _); simpl; [done|by split; [|intros [? ?]]]. }
  split_and!.
  - apply Hiff.
  - intros u' Hc Hg [H1 H2]%Hiff. apply Hiff. split.
    + by eapply Qle_trans.
    + by eapply Qle_trans.
  - intros Hn. unfold PerformanceMonitor.can_encode.
    rewrite <- Qle_bool_iff in Hn. by destruct (Qle_bool (cpu_usage u) _).
Qed.

(** X17: [get_gpu_usage] reports 0 unless the platform is Windows or Linux and
    [nvidia-smi] exits with 0 and prints a number; with that fallback and
    a GPU threshold that is not negative, admission depends on the CPU
    alone. *)
Theorem get_gpu_usage_fallback
    (self : PerformanceMonitor.t) (platform : str)
    (nvidia_smi : completed (result Q)) (cpu : Q) :
  (platform ∉ [lit "Windows"; lit "Linux"]
   ∨ ∀ usage, nvidia_smi ≠ Exited 0 (Ok usage)) →
  (0 <= PerformanceMonitor.gpu_threshold self)%Q →
  PerformanceMonitor.get_gpu_usage platform nvidia_smi = (0 # 1)%Q
  ∧ (PerformanceMonitor.can_encode self
       (mk_usage cpu (PerformanceMonitor.get_gpu_usage platform nvidia_smi))).1
    = Qle_bool cpu (PerformanceMonitor.cpu_threshold self).
Proof.
  intros Hfail Hthr.
  assert (Hz : PerformanceMonitor.get_gpu_usage platform nvidia_smi = (0 # 1)%Q).
  { unfold PerformanceMonitor.get_gpu_usage.
    destruct (bool_decide (platform ∈ [lit "Windows"; lit "Linux"])) eqn:Hp; [|done].
    apply bool_decide_eq_true in Hp. destruct Hfail as [Hfail|Hfail]; [done|].
    destruct nvidia_smi as [rc out|e]; simpl.
    - destruct (bool_decide (rc = 0%Z)) eqn:Hrc; [|done].
      apply bool_decide_eq_true in Hrc as ->.
      destruct out as [q|e]; [by destruct (Hfail q)|]. simpl.
      by destruct (bool_decide _).
    - by destruct (bool_decide _). }
  split; [done|]. rewrite Hz. unfold PerformanceMonitor.can_encode. simpl.
  destruct (Qle_bool cpu _); simpl; [|done].
  apply Qle_bool_iff in Hthr. by rewrite Hthr.
Qed.

(** A successful reading is passed on unchanged. *)
Lemma get_gpu_usage_reading (usage : Q) :
  PerformanceMonitor.get_gpu_usage (lit "Linux") (Exited 0 (Ok usage)) = usage.
Proof. reflexivity. Qed.

(** ** The worker loop *)

Lemma step_queue (self : EncodingWorker.t) (env : Env) (q : list Path) (w : World) :
  let q' := (EncodingWorker.step self env (q, w)).1.1 in
  length q' ≤ length q ∧ ∀ p, p ∈ q' → p ∈ q.
Proof.
  destruct q as [|x rest]; [done|]. unfold EncodingWorker.step.
  destruct (FileScanner.should_process _ w x) as [[|]|e]; simpl.
  - destruct (PerformanceMonitor.can_encode _ _) as [[|] why]; simpl.
    + destruct (VideoConverter.convert_video _ _ _ _ _) as [[[|]|e] w']; simpl;
        (split; [lia | intros p Hp; by right]).
    + rewrite length_app. simpl. split; [lia|].
      intros p [Hp|Hp%list_elem_of_singleton]%elem_of_app; [by right | subst; by left].
  - split; [lia | intros p Hp; by right].
  - split; [lia | intros p Hp; by right].
Qed.

(** X18: the worker never adds work: after any run the queue is no longer than
    before, it holds only items that were queued, and there is one event
    for each turn. *)
Theorem run_never_grows_the_queue
    (self : EncodingWorker.t) (envs : list Env) (q : list Path) (w : World) :
  let r := EncodingWorker.run self envs (q, w) in
  length r.1.1 ≤ length q
  ∧ (∀ p, p ∈ r.1.1 → p ∈ q)
  ∧ length r.2 ≤ length envs.
Proof.
  revert q w. induction envs as [|env envs IH]; intros q w; cbn [EncodingWorker.run].
  - simpl. split_and!; done.
  - destruct (shutdown env); [simpl; split_and!; [done | done | lia]|].
    pose proof (step_queue self env q w) as [Hl Hin].
    destruct (EncodingWorker.step self env (q, w)) as [[q1 w1] ev].
    simpl in Hl, Hin.
    specialize (IH q1 w1).
    destruct (EncodingWorker.run self envs (q1, w1)) as [[q2 w2] evs].
    simpl in *. destruct IH as (H1 & H2 & H3). split_and!; [lia | | lia].
    intros p Hp. by apply Hin, H2.
Qed.

(** X19: a queued source whose derivative is on disk is skipped, whatever the
    load and the tools: the worker does not encode it again. *)
Theorem worker_skips_encoded_source
    (self : EncodingWorker.t) (env : Env) (w : World) (p : Path)
    (rest : list Path) (e : str) :
  name p ≠ [] →
  FileScanner.output_format (EncodingWorker.scanner self) = dot :: e →
  "["%char ∉ path_stem p ++ FileScanner.suffix (EncodingWorker.scanner self) →
  contains (output_pattern (EncodingWorker.scanner self) p) (lit "**") = false →
  stat_denied w (parent p) = false → list_denied w (parent p) = false →
  tree_shaped w = true →
  is_Some (entries w !! FileScanner.get_output_path (EncodingWorker.scanner self) p) →
  EncodingWorker.step self env (p :: rest, w) = (rest, w, Skipped p).
Proof.
  intros Hn Hf Hb Hpat Hs Hl Ht Hd. unfold EncodingWorker.step.
  by rewrite (should_process_false_after_encode _ w p e).
Qed.

(** ** Discovery *)



(** X20: a filesystem event adds at most the path it names, at the tail, and
    only when the event is not about a directory and the path passes
    [should_process] and the stability check; every other outcome, an
    exception included, leaves the queue as it was.  Creation and
    modification are handled alike. *)
Theorem event_adds_at_most_its_path
    (sc : FileScanner.t) (w : World) (obs : Samples) (q : list Path)
    (ev : FileSystemEvent) :
  let q' := VideoFileHandler.on_created sc w obs q ev in
  VideoFileHandler.on_modified sc w obs q ev = q'
  ∧ (is_directory ev = false
     ∧ FileScanner.should_process sc w (src_path ev) = Ok true
     ∧ FileScanner.is_file_stable obs (src_path ev) 5 = Ok true →
     q' = q ++ [src_path ev])
  ∧ (¬ (is_directory ev = false
        ∧ FileScanner.should_process sc w (src_path ev) = Ok true
        ∧ FileScanner.is_file_stable obs (src_path ev) 5 = Ok true) →
     q' = q).
Proof.
  unfold VideoFileHandler.on_created, VideoFileHandler.on_modified,
    VideoFileHandler._handle_file.
  split; [done|]. split.
  - intros (-> & -> & Hst). simpl. by rewrite Hst.
  - intros Hn. destruct (is_directory ev); [done|].
    destruct (FileScanner.should_process sc w (src_path ev)) as [[|]|e]; simpl;
      [|done..].
    destruct (FileScanner.is_file_stable obs (src_path ev) 5) as [[|]|e]; simpl;
      [|done..].
    by destruct Hn.
Qed.




(** ** Validation of the configuration *)

Lemma check_folder_Ok (w : World) (f : Path) (u : ()) :
  Config.check_folder w u f = Ok ()
  ↔ path_exists w f = Ok true ∧ path_is_dir w f = Ok true.
Proof.
  unfold Config.check_folder.
  destruct (path_exists w f) as [[|]|e]; rewrite ?bind_Ok, ?bind_Raise; cbn [negb].
  - destruct (path_is_dir w f) as [[|]|e']; rewrite ?bind_Ok, ?bind_Raise; cbn [negb].
    + done.
    + split; [done | by intros [_ ?]].
    + split; [done | by intros [_ ?]].
  - split; [done | by intros [? _]].
  - split; [done | by intros [? _]].
Qed.

Lemma check_folders_Ok (w : World) (folders : list Path) :
  for_each folders (Config.check_folder w) () = Ok ()
  ↔ Forall (λ folder, path_exists w folder = Ok true
                      ∧ path_is_dir w folder = Ok true) folders.
Proof.
  induction folders as [|f folders IH]; cbn [for_each].
  - split; [by constructor | done].
  - rewrite Forall_cons, <- IH, <- (check_folder_Ok w f ()).
    destruct (Config.check_folder w () f) as [[]|e]; rewrite ?bind_Ok, ?bind_Raise.
    + split; [done | by intros [_ ?]].
    + split; [done | by intros [? _]].
Qed.

(** X22: [validate] returns [True] exactly when every folder exists and is a
    directory, both thresholds lie between 0 and 100 and at least one
    encode is allowed; it never returns [False]: every violation raises. *)
Theorem validate_spec (self : Config.t) (w : World) :
  (Config.validate self w = Ok true
   ↔ Forall (λ folder, path_exists w folder = Ok true
                       ∧ path_is_dir w folder = Ok true)
            (Config.movie_folders self)
     ∧ (0 <= Config.cpu_threshold self)%Q ∧ (Config.cpu_threshold self <= 100 # 1)%Q
     ∧ (0 <= Config.gpu_threshold self)%Q ∧ (Config.gpu_threshold self <= 100 # 1)%Q
     ∧ (1 ≤ Config.max_encodes self)%Z)
  ∧ Config.validate self w ≠ Ok false.
Proof.
  unfold Config.validate. rewrite <- check_folders_Ok, <- !Qle_bool_iff.
  destruct (for_each _ _ _) as [[]|e]; simpl.
  2:{ split; [|done]. split; [done | by intros [? _]]. }
  destruct (Qle_bool 0 (Config.cpu_threshold self)); simpl.
  2:{ split; [|done]. split; [done | by intros (_ & ? & _)]. }
  destruct (Qle_bool (Config.cpu_threshold self) (100 # 1)); simpl.
  2:{ split; [|done]. split; [done | by intros (_ & _ & ? & _)]. }
  destruct (Qle_bool 0 (Config.gpu_threshold self)); simpl.
  2:{ split; [|done]. split; [done | by intros (_ & _ & _ & ? & _)]. }
  destruct (Qle_bool (Config.gpu_threshold self) (100 # 1)); simpl.
  2:{ split; [|done]. split; [done | by intros (_ & _ & _ & _ & ? & _)]. }
  destruct (Config.max_encodes self <? 1)%Z eqn:Hm.
  - apply Z.ltb_lt in Hm. split; [|done]. split; [done|].
    intros (_ & _ & _ & _ & _ & ?). lia.
  - apply Z.ltb_ge in Hm. split; [|done]. split; [|done].
    intros _. split_and!; done.
Qed.

(** ** Instances on example filesystems *)

Lemma scan_folder_aborts_on_error_witness :
  walked stars_world media stars_mkv
  ∧ FileScanner.is_video_file the_scanner stars_mkv = true
  ∧ FileScanner.is_already_processed the_scanner stars_mkv = false
  ∧ FileScanner.has_output_file the_scanner stars_world stars_mkv = Raise ValueError
  ∧ FileScanner.should_process the_scanner stars_world good_mkv = Ok true
  ∧ FileScanner.scan_folder the_scanner stars_world media = [].
Proof.
  assert (Hw : walked stars_world media stars_mkv).
  { apply list_elem_of_In. vm_compute. tauto. }
  split; [exact Hw|].
  split; [vm_compute; reflexivity|].
  split; [vm_compute; reflexivity|].
  split; [vm_compute; reflexivity|].
  split; [vm_compute; reflexivity|].
  apply (scan_folder_aborts_on_error the_scanner stars_world media stars_mkv
           ValueError Hw); vm_compute; reflexivity.
Defined.


Lemma scan_folder_skips_unlistable_witness :
  good_mkv ∈ FileScanner.scan_folder the_scanner closed_dir_world media
  ∧ (∃ e, entries closed_dir_world !! good_mkv = Some e ∧ is_dir e = false)
  ∧ media `prefix_of` parent good_mkv
  ∧ ∀ d, media `prefix_of` d → d `prefix_of` parent good_mkv →
         list_denied closed_dir_world d = false
         ∧ ∃ e, entries closed_dir_world !! d = Some e ∧ is_dir e = true.
Proof.
  assert (H : good_mkv ∈ FileScanner.scan_folder the_scanner closed_dir_world media).
  { apply list_elem_of_In. vm_compute. tauto. }
  split; [exact H|].
  apply (scan_folder_skips_unlistable the_scanner closed_dir_world media good_mkv H).
Defined.

Lemma world_of_entry (es : list (Path * entry)) (f : Path) :
  is_Some (entries (world_of es) !! f) → f ∈ map fst es.
Proof.
  intros [e He]. apply elem_of_list_to_map_2 in He.
  apply list_elem_of_fmap. by exists (f, e).
Qed.

Lemma walk_files_media_world : walk_files media_world media = [movie_mkv].
Proof. vm_compute. reflexivity. Qed.

Lemma scan_folder_spec_witness :
  (∀ f, walked media_world media f →
        FileScanner.is_video_file the_scanner f = true →
        FileScanner.is_already_processed the_scanner f = false →
        contains (output_pattern the_scanner f) (lit "**") = false
        ∧ stat_denied media_world (parent f) = false)
  ∧ ∀ f, f ∈ FileScanner.scan_folder the_scanner media_world media
         ↔ walked media_world media f
           ∧ FileScanner.is_video_file the_scanner f = true
           ∧ FileScanner.is_already_processed the_scanner f = false
           ∧ ¬ ∃ q, derivative_entry the_scanner media_world f q.
Proof.
  assert (H : ∀ f, walked media_world media f →
        FileScanner.is_video_file the_scanner f = true →
        FileScanner.is_already_processed the_scanner f = false →
        contains (output_pattern the_scanner f) (lit "**") = false
        ∧ stat_denied media_world (parent f) = false).
  { intros f Hw _ _. unfold walked in Hw. rewrite walk_files_media_world in Hw.
    apply list_elem_of_singleton in Hw as ->. split; vm_compute; reflexivity. }
  split; [exact H|].
  apply (scan_folder_spec the_scanner media_world media H).
Defined.

Lemma find_orphaned_files_spec_witness :
  (∀ f, walked orphan_world media f →
        Cleanup.is_pengystream_file the_cleanup f = true →
        stat_denied orphan_world (Cleanup.get_original_path the_cleanup f) = false)
  ∧ ∀ f, f ∈ Cleanup.find_orphaned_files the_cleanup orphan_world media
         ↔ walked orphan_world media f
           ∧ Cleanup.is_pengystream_file the_cleanup f = true
           ∧ entries orphan_world !! Cleanup.get_original_path the_cleanup f = None.
Proof.
  assert (H : ∀ f, walked orphan_world media f →
        Cleanup.is_pengystream_file the_cleanup f = true →
        stat_denied orphan_world (Cleanup.get_original_path the_cleanup f) = false).
  { intros f _ _. reflexivity. }
  split; [exact H|].
  apply (find_orphaned_files_spec the_cleanup orphan_world media H).
Defined.

Lemma single_marker_orphan_world : single_marker the_cleanup orphan_world.
Proof.
  intros f Hf _. apply world_of_entry in Hf.
  repeat (apply elem_of_cons in Hf as [->|Hf]; [vm_compute; reflexivity|]).
  by apply elem_of_nil in Hf.
Qed.

Lemma cleanup_second_pass_is_idle_witness :
  (∀ p, stat_denied orphan_world p = false)
  ∧ (∀ p, unlink_denied orphan_world p = false)
  ∧ single_marker the_cleanup orphan_world
  ∧ let w1 := (Cleanup.cleanup_orphaned_files the_cleanup [media] false
                 orphan_world).2 in
    (∀ folder, folder ∈ [media] →
               Cleanup.find_orphaned_files the_cleanup w1 folder = [])
    ∧ Cleanup.cleanup_orphaned_files the_cleanup [media] false w1 = (0, w1).
Proof.
  split; [reflexivity|]. split; [reflexivity|].
  split; [exact single_marker_orphan_world|].
  apply (cleanup_second_pass_is_idle the_cleanup [media] orphan_world);
    [reflexivity | reflexivity | exact single_marker_orphan_world].
Defined.



Lemma output_path_is_a_derivative_witness :
  name movie_mkv ≠ []
  ∧ Cleanup.suffix the_cleanup = FileScanner.suffix the_scanner
  ∧ FileScanner.output_format the_scanner = dot :: lit "mp4"
  ∧ lit "mp4" ≠ [] ∧ (dot ∉ lit "mp4")
  ∧ let d := FileScanner.get_output_path the_scanner movie_mkv in
    FileScanner.is_already_processed the_scanner d = true
    ∧ FileScanner.should_process the_scanner media_world d = Ok false
    ∧ (lower (dot :: lit "mp4") ∈ Cleanup.video_extensions the_cleanup →
       Cleanup.is_pengystream_file the_cleanup d = true).
Proof.
  assert (Hd : dot ∉ lit "mp4").
  { intros H. repeat (apply elem_of_cons in H as [H|H]; [discriminate H|]).
    by apply elem_of_nil in H. }
  split; [discriminate|]. split; [reflexivity|]. split; [reflexivity|].
  split; [discriminate|]. split; [exact Hd|].
  apply (output_path_is_a_derivative the_scanner the_cleanup (lit "mp4")
           movie_mkv media_world);
    [discriminate | reflexivity | reflexivity | discriminate | exact Hd].
Defined.

Lemma derivative_is_orphan_witness :
  name other_mkv ≠ []
  ∧ Cleanup.suffix the_cleanup = FileScanner.suffix the_scanner
  ∧ FileScanner.suffix the_scanner ≠ []
  ∧ FileScanner.output_format the_scanner = dot :: lit "mp4"
  ∧ lit "mp4" ≠ [] ∧ (dot ∉ lit "mp4")
  ∧ lower (dot :: lit "mp4") ∈ Cleanup.video_extensions the_cleanup
  ∧ (∀ q, stat_denied orphan_world q = false)
  ∧ walked orphan_world media (FileScanner.get_output_path the_scanner other_mkv)
  ∧ entries orphan_world !! (parent other_mkv ++ [path_stem other_mkv ++ dot :: lit "mp4"])
    = None
  ∧ is_Some (entries orphan_world !! other_mkv)
  ∧ FileScanner.get_output_path the_scanner other_mkv
    ∈ Cleanup.find_orphaned_files the_cleanup orphan_world media.
Proof.
  assert (Hd : dot ∉ lit "mp4").
  { intros H. repeat (apply elem_of_cons in H as [H|H]; [discriminate H|]).
    by apply elem_of_nil in H. }
  assert (Hext : lower (dot :: lit "mp4") ∈ Cleanup.video_extensions the_cleanup).
  { by left. }
  assert (Hw : walked orphan_world media
                 (FileScanner.get_output_path the_scanner other_mkv)).
  { unfold walked. rewrite walk_files_orphan_world. by left. }
  assert (Hn : entries orphan_world
                 !! (parent other_mkv ++ [path_stem other_mkv ++ dot :: lit "mp4"])
               = None) by (vm_compute; reflexivity).
  split; [discriminate|]. split; [reflexivity|]. split; [discriminate|].
  split; [reflexivity|]. split; [discriminate|]. split; [exact Hd|].
  split; [exact Hext|]. split; [reflexivity|]. split; [exact Hw|].
  split; [exact Hn|]. split; [by eexists|].
  apply (derivative_is_orphan_without_same_extension_source the_scanner
           the_cleanup (lit "mp4") other_mkv media orphan_world);
    [discriminate | reflexivity | discriminate | reflexivity | discriminate
     | exact Hd | exact Hext | reflexivity | exact Hw | exact Hn].
Defined.


Lemma has_output_file_any_extension_witness :
  name movie_mkv ≠ []
  ∧ ("["%char ∉ path_stem movie_mkv ++ FileScanner.suffix the_scanner)
  ∧ contains (output_pattern the_scanner movie_mkv) (lit "**") = false
  ∧ stat_denied avi_world (parent movie_mkv) = false
  ∧ list_denied avi_world (parent movie_mkv) = false
  ∧ tree_shaped avi_world = true
  ∧ is_Some (entries avi_world
               !! (parent movie_mkv
                   ++ [(path_stem movie_mkv ++ FileScanner.suffix the_scanner)
                       ++ dot :: lit "avi"]))
  ∧ FileScanner.has_output_file the_scanner avi_world movie_mkv = Ok true
  ∧ FileScanner.should_process the_scanner avi_world movie_mkv = Ok false.
Proof.
  assert (Hb : "["%char ∉ path_stem movie_mkv ++ FileScanner.suffix the_scanner).
  { intros H. repeat (apply elem_of_cons in H as [H|H]; [discriminate H|]).
    by apply elem_of_nil in H. }
  assert (Ht : tree_shaped avi_world = true) by (vm_compute; reflexivity).
  assert (Hd : is_Some (entries avi_world
               !! (parent movie_mkv
                   ++ [(path_stem movie_mkv ++ FileScanner.suffix the_scanner)
                       ++ dot :: lit "avi"]))) by (by eexists).
  split; [discriminate|]. split; [exact Hb|]. split; [reflexivity|].
  split; [reflexivity|]. split; [reflexivity|]. split; [exact Ht|].
  split; [exact Hd|].
  apply (has_output_file_any_extension the_scanner avi_world movie_mkv (lit "avi"));
    [discriminate | exact Hb | reflexivity | reflexivity | reflexivity
     | exact Ht | exact Hd].
Defined.

Lemma get_video_info_first_video_witness :
  ffprobe (tools_with hevc_2160_aac 0 350) media_world movie_mkv
  = Exited 0 (Some hevc_2160_aac)
  ∧ ∃ info,
      VideoConverter.get_video_info the_converter (tools_with hevc_2160_aac 0 350)
        media_world movie_mkv = Some info
      ∧ (∀ pre v post,
           hevc_2160_aac = pre ++ v :: post →
           codec_type v = Some (lit "video") →
           (∀ s, s ∈ pre → codec_type s ≠ Some (lit "video")) →
           VideoInfo.has_video info = true
           ∧ VideoInfo.video_codec info = lower (default [] (codec_name v))
           ∧ VideoInfo.video_height info = default 0%Z (height v))
      ∧ ((∀ s, s ∈ hevc_2160_aac → codec_type s ≠ Some (lit "video")) →
         VideoInfo.has_video info = false
         ∧ VideoInfo.video_codec info = []
         ∧ VideoInfo.video_height info = 0%Z).
Proof.
  split; [reflexivity|].
  apply (get_video_info_first_video the_converter (tools_with hevc_2160_aac 0 350)
           media_world movie_mkv hevc_2160_aac).
  reflexivity.
Defined.

Lemma convert_video_true_inv_witness :
  VideoConverter.convert_video the_converter (tools_with hevc_2160_aac 0 350)
    media_world movie_mkv movie_out
  = (Ok true, write_file media_world movie_out 350)
  ∧ ∃ info out,
      VideoConverter.get_video_info the_converter (tools_with hevc_2160_aac 0 350)
        media_world movie_mkv = Some info
      ∧ VideoConverter.copy_if_compatible the_converter
        && (VideoConverter.is_compatible the_converter info).1
        && (VideoConverter.is_compatible the_converter info).2 = false
      ∧ ffmpeg (tools_with hevc_2160_aac 0 350) media_world
          (VideoConverter.ffmpeg_command the_converter info
             (VideoConverter.is_compatible the_converter info).1
             (VideoConverter.is_compatible the_converter info).2
             movie_mkv movie_out)
        = (Exited 0 out, write_file media_world movie_out 350).
Proof.
  split; [reflexivity|].
  apply (convert_video_true_inv the_converter (tools_with hevc_2160_aac 0 350)
           media_world (write_file media_world movie_out 350) movie_mkv movie_out).
  reflexivity.
Defined.

Lemma no_copy_without_flag_witness :
  VideoConverter.copy_if_compatible plain_converter = false
  ∧ VideoConverter.get_video_info plain_converter (tools_with h264_1080_aac 0 350)
      media_world movie_mkv = Some h264_1080_aac_info
  ∧ VideoConverter.is_compatible plain_converter h264_1080_aac_info = (true, true)
  ∧ VideoConverter.convert_video plain_converter (tools_with h264_1080_aac 0 350)
      media_world movie_mkv movie_out
    = (Ok true, write_file media_world movie_out 350).
Proof.
  split; [reflexivity|]. split; [reflexivity|]. split; [reflexivity|].
  destruct (no_copy_without_flag plain_converter (tools_with h264_1080_aac 0 350)
              media_world (write_file media_world movie_out 350)
              h264_1080_aac_info movie_mkv movie_out ())
    as (_ & _ & _ & H); [reflexivity | reflexivity | reflexivity | exact H].
Defined.

Lemma get_gpu_usage_fallback_witness :
  (lit "Darwin" ∉ [lit "Windows"; lit "Linux"]
   ∨ ∀ usage : Q, Raised FileNotFoundError ≠ Exited 0 (Ok usage))
  ∧ (0 <= PerformanceMonitor.gpu_threshold the_monitor)%Q
  ∧ PerformanceMonitor.get_gpu_usage (lit "Darwin") (Raised FileNotFoundError)
    = (0 # 1)%Q
  ∧ (PerformanceMonitor.can_encode the_monitor
       (mk_usage (5 # 1)
          (PerformanceMonitor.get_gpu_usage (lit "Darwin")
             (Raised FileNotFoundError)))).1
    = Qle_bool (5 # 1) (PerformanceMonitor.cpu_threshold the_monitor).
Proof.
  assert (H : lit "Darwin" ∉ [lit "Windows"; lit "Linux"]
              ∨ ∀ usage : Q, Raised FileNotFoundError ≠ Exited 0 (Ok usage)).
  { right. intros usage. discriminate. }
  assert (Hq : (0 <= PerformanceMonitor.gpu_threshold the_monitor)%Q).
  { by vm_compute. }
  split; [exact H|]. split; [exact Hq|].
  apply (get_gpu_usage_fallback the_monitor (lit "Darwin")
           (Raised FileNotFoundError) (5 # 1) H Hq).
Defined.

Lemma worker_skips_encoded_source_witness :
  name movie_mkv ≠ []
  ∧ FileScanner.output_format (EncodingWorker.scanner the_worker) = dot :: lit "mp4"
  ∧ ("["%char ∉ path_stem movie_mkv
                 ++ FileScanner.suffix (EncodingWorker.scanner the_worker))
  ∧ contains (output_pattern (EncodingWorker.scanner the_worker) movie_mkv)
             (lit "**") = false
  ∧ stat_denied encoded_world (parent movie_mkv) = false
  ∧ list_denied encoded_world (parent movie_mkv) = false
  ∧ tree_shaped encoded_world = true
  ∧ is_Some (entries encoded_world
               !! FileScanner.get_output_path (EncodingWorker.scanner the_worker)
                    movie_mkv)
  ∧ EncodingWorker.step the_worker (idle (tools_with hevc_2160_aac 0 350))
      ([movie_mkv; good_mkv], encoded_world)
    = ([good_mkv], encoded_world, Skipped movie_mkv).
Proof.
  assert (Hb : "["%char ∉ path_stem movie_mkv
                 ++ FileScanner.suffix (EncodingWorker.scanner the_worker)).
  { intros H. repeat (apply elem_of_cons in H as [H|H]; [discriminate H|]).
    by apply elem_of_nil in H. }
  assert (Ht : tree_shaped encoded_world = true) by (vm_compute; reflexivity).
  assert (Hd : is_Some (entries encoded_world
               !! FileScanner.get_output_path (EncodingWorker.scanner the_worker)
                    movie_mkv)) by (by eexists).
  split; [discriminate|]. split; [reflexivity|]. split; [exact Hb|].
  split; [reflexivity|]. split; [reflexivity|]. split; [reflexivity|].
  split; [exact Ht|]. split; [exact Hd|].
  apply (worker_skips_encoded_source the_worker
           (idle (tools_with hevc_2160_aac 0 350)) encoded_world movie_mkv
           [good_mkv] (lit "mp4"));
    [discriminate | reflexivity | exact Hb | reflexivity | reflexivity
     | reflexivity | exact Ht | exact Hd].
Defined.

(** ** Extensions are read without regard to case *)

Lemma lower_char_dot (c : ascii) : Ascii.eqb (lower_char c) dot = Ascii.eqb c dot.
Proof. destruct c as [[] [] [] [] [] [] [] []]; reflexivity. Qed.

Lemma rfind_lower (s : str) : rfind dot (lower s) = rfind dot s.
Proof.
  induction s as [|c s IH]; [done|]. unfold lower in *. cbn [map rfind].
  by rewrite IH, lower_char_dot.
Qed.

Lemma path_suffix_lower (d : Path) (n : str) :
  path_suffix (d ++ [lower n]) = lower (path_suffix (d ++ [n])).
Proof.
  unfold path_suffix. rewrite !name_snoc, rfind_lower.
  destruct (rfind dot n) as [i|]; [|done].
  unfold lower at 1. rewrite length_map.
  destruct ((0 <? i) && (i <? length n - 1)); [|done].
  unfold lower. by rewrite skipn_map.
Qed.

(** X23: [is_video_file] reads the extension without regard to case: two
    names that agree once put in lower case get the same answer. *)
Theorem is_video_file_ignores_case
    (sc : FileScanner.t) (d : Path) (n n' : str) :
  lower n = lower n' →
  FileScanner.is_video_file sc (d ++ [n]) = FileScanner.is_video_file sc (d ++ [n']).
Proof.
  intros Hl. unfold FileScanner.is_video_file.
  by rewrite <- !path_suffix_lower, Hl.
Qed.

Lemma is_video_file_ignores_case_witness :
  lower (lit "MOVIE.MKV") = lower (lit "movie.mkv")
  ∧ FileScanner.is_video_file the_scanner (media ++ [lit "MOVIE.MKV"])
    = FileScanner.is_video_file the_scanner (media ++ [lit "movie.mkv"])
  ∧ FileScanner.is_video_file the_scanner (media ++ [lit "movie.mkv"]) = true.
Proof.
  split; [reflexivity|]. split; [|vm_compute; reflexivity].
  apply (is_video_file_ignores_case the_scanner media (lit "MOVIE.MKV")
           (lit "movie.mkv")).
  reflexivity.
Defined.

(** ** Patterns that [pathlib] refuses *)

Lemma contains_app_l (a b t : str) :
  contains a t = true → contains (a ++ b) t = true.
Proof.
  induction a as [|c a IH]; cbn [contains app].
  - rewrite orb_false_r. intros Ht%bool_decide_eq_true.
    apply prefix_nil_inv in Ht as ->.
    destruct b; cbn [contains];
      by rewrite (bool_decide_eq_true_2 _ (prefix_nil _)).
  - intros [Ht%bool_decide_eq_true|Ht]%orb_true_iff.
    + rewrite bool_decide_eq_true_2; [done|].
      change (c :: a ++ b) with ((c :: a) ++ b). by apply prefix_app_r.
    + rewrite IH by done. apply orb_true_r.
Qed.

(** X24: a source with a recognized extension whose stem holds two stars
    in a row can never be examined: [pathlib] refuses the pattern, so
    [has_output_file] and [should_process] raise [ValueError] on every
    filesystem, and the worker drops the item with an error. *)
Theorem double_star_stem_raises
    (self : EncodingWorker.t) (env : Env) (w : World) (p : Path)
    (rest : list Path) :
  FileScanner.is_video_file (EncodingWorker.scanner self) p = true →
  FileScanner.is_already_processed (EncodingWorker.scanner self) p = false →
  contains (path_stem p) (lit "**") = true →
  FileScanner.has_output_file (EncodingWorker.scanner self) w p = Raise ValueError
  ∧ FileScanner.should_process (EncodingWorker.scanner self) w p = Raise ValueError
  ∧ EncodingWorker.step self env (p :: rest, w) = (rest, w, Errored p ValueError).
Proof.
  intros Hv Hp Hs.
  assert (Hh : FileScanner.has_output_file (EncodingWorker.scanner self) w p
               = Raise ValueError).
  { unfold FileScanner.has_output_file, glob.
    rewrite (contains_app_l (path_stem p) _ _ Hs).
    rewrite bool_decide_eq_false_2; [done|].
    intros H. apply (f_equal length) in H. rewrite !length_app in H.
    simpl in H. lia. }
  assert (Hsp : FileScanner.should_process (EncodingWorker.scanner self) w p
                = Raise ValueError).
  { unfold FileScanner.should_process. by rewrite Hv, Hp, Hh. }
  split; [done|]. split; [done|].
  unfold EncodingWorker.step. by rewrite Hsp.
Qed.

Lemma double_star_stem_raises_witness :
  FileScanner.is_video_file (EncodingWorker.scanner the_worker) stars_mkv = true
  ∧ FileScanner.is_already_processed (EncodingWorker.scanner the_worker) stars_mkv
    = false
  ∧ contains (path_stem stars_mkv) (lit "**") = true
  ∧ FileScanner.has_output_file (EncodingWorker.scanner the_worker) stars_world
      stars_mkv = Raise ValueError
  ∧ FileScanner.should_process (EncodingWorker.scanner the_worker) stars_world
      stars_mkv = Raise ValueError
  ∧ EncodingWorker.step the_worker busy ([stars_mkv], stars_world)
    = ([], stars_world, Errored stars_mkv ValueError).
Proof.
  split; [vm_compute; reflexivity|]. split; [vm_compute; reflexivity|].
  split; [vm_compute; reflexivity|].
  apply (double_star_stem_raises the_worker busy stars_world stars_mkv []);
    vm_compute; reflexivity.
Defined.

(** ** No file is listed twice *)

Lemma flat_map_bind {A B} (f : A → list B) (l : list A) : flat_map f l = l ≫= f.
Proof. induction l as [|x l IH]; simpl; [done|]. by rewrite IH. Qed.

Lemma NoDup_walk_files (w : World) (folder : Path) : NoDup (walk_files w folder).
Proof.
  unfold walk_files, os_walk. rewrite flat_map_bind.
  apply NoDup_bind.
  - intros [[d1 ds1] fs1] [[d2 ds2] fs2] f H1 H2 Hf1 Hf2.
    apply list_elem_of_fmap in H1 as (d1' & [= -> -> ->] & H1).
    apply list_elem_of_fmap in H2 as (d2' & [= -> -> ->] & H2).
    apply list_elem_of_filter in H1 as [Hv1 _].
    apply list_elem_of_filter in H2 as [Hv2 _].
    destruct (listable_scandir w d1' (walk_visits_listable _ _ _ Hv1))
      as (_ & _ & _ & _ & E1).
    destruct (listable_scandir w d2' (walk_visits_listable _ _ _ Hv2))
      as (_ & _ & _ & _ & E2).
    rewrite E1 in Hf1. rewrite E2 in Hf2.
    apply list_elem_of_fmap in Hf1 as (c1 & -> & Hc1).
    apply list_elem_of_fmap in Hf2 as (c2 & Hc & Hc2).
    apply list_elem_of_fmap in Hc1 as ([c1' e1] & -> & Hc1).
    apply list_elem_of_fmap in Hc2 as ([c2' e2] & -> & Hc2). simpl in *.
    apply list_elem_of_filter in Hc1 as [_ Hc1].
    apply list_elem_of_filter in Hc2 as [_ Hc2].
    apply list_elem_of_fmap in Hc1 as ([q1 e1'] & [= -> ->] & Hq1).
    apply list_elem_of_fmap in Hc2 as ([q2 e2'] & [= -> ->] & Hq2).
    apply list_elem_of_filter in Hq1 as [[Hq1 Hn1]%child_of_spec _].
    apply list_elem_of_filter in Hq2 as [[Hq2 Hn2]%child_of_spec _].
    simpl in *. rewrite !truediv_valid in Hc by done.
    apply app_inj_tail in Hc as [-> _]. done.
  - intros [[d ds] fs] Hd.
    apply list_elem_of_fmap in Hd as (d' & [= -> -> ->] & Hd).
    apply list_elem_of_filter in Hd as [Hv _].
    destruct (listable_scandir w d' (walk_visits_listable _ _ _ Hv))
      as (_ & _ & _ & _ & E).
    rewrite E. apply NoDup_fmap_2_strong.
    + intros c1 c2 Hc1 Hc2 Hc.
      apply list_elem_of_fmap in Hc1 as ([c1' e1] & -> & Hc1).
      apply list_elem_of_fmap in Hc2 as ([c2' e2] & -> & Hc2). simpl in *.
      apply list_elem_of_filter in Hc1 as [_ Hc1].
      apply list_elem_of_filter in Hc2 as [_ Hc2].
      apply list_elem_of_fmap in Hc1 as ([q1 e1'] & [= -> ->] & Hq1).
      apply list_elem_of_fmap in Hc2 as ([q2 e2'] & [= -> ->] & Hq2).
      apply list_elem_of_filter in Hq1 as [[Hq1 Hn1]%child_of_spec _].
      apply list_elem_of_filter in Hq2 as [[Hq2 Hn2]%child_of_spec _].
      simpl in *. rewrite !truediv_valid in Hc by done.
      by apply app_inj_tail in Hc as [_ ->].
    + apply NoDup_fmap_2_strong.
      * intros [c1 e1] [c2 e2] H1 H2 Hc. simpl in Hc. subst c2.
        apply list_elem_of_filter in H1 as [_ H1].
        apply list_elem_of_filter in H2 as [_ H2].
        apply list_elem_of_fmap in H1 as ([q1 e1'] & [= -> ->] & Hq1).
        apply list_elem_of_fmap in H2 as ([q2 e2'] & [= Hn ->] & Hq2).
        apply list_elem_of_filter in Hq1 as [[Hq1 _]%child_of_spec Hm1].
        apply list_elem_of_filter in Hq2 as [[Hq2 _]%child_of_spec Hm2].
        simpl in *. assert (q1 = q2) as -> by congruence.
        apply elem_of_map_to_list in Hm1, Hm2. congruence.
      * apply NoDup_filter, NoDup_fmap_2_strong.
        -- intros [q1 e1] [q2 e2] H1 H2 [= Hn ->].
           apply list_elem_of_filter in H1 as [[Hq1 _]%child_of_spec _].
           apply list_elem_of_filter in H2 as [[Hq2 _]%child_of_spec _].
           simpl in *. f_equal. congruence.
        -- apply NoDup_filter, NoDup_map_to_list.
  - apply NoDup_fmap_2_strong.
    + by intros d1 d2 _ _ [= ->].
    + apply NoDup_filter. apply NoDup_fst_map_to_list.
Qed.

(** X25: [scan_folder] and [find_orphaned_files] list no file twice. *)
Theorem scan_lists_no_file_twice
    (sc : FileScanner.t) (cl : Cleanup.t) (w : World) (folder : Path) :
  NoDup (FileScanner.scan_folder sc w folder)
  ∧ NoDup (Cleanup.find_orphaned_files cl w folder).
Proof.
  split.
  - unfold FileScanner.scan_folder. rewrite scan_walk_collect.
    destruct (for_each _ _ _) as [l|e] eqn:Hl; [|constructor].
    apply for_each_collect_inv in Hl as [_ ->]. simpl.
    apply NoDup_filter, NoDup_walk_files.
  - unfold Cleanup.find_orphaned_files. rewrite orphan_walk_collect.
    destruct (for_each _ _ _) as [l|e] eqn:Hl; [|constructor].
    apply for_each_collect_inv in Hl as [_ ->]. simpl.
    apply NoDup_filter, NoDup_walk_files.
Qed.

(** ** More on the worker loop and on discovery *)

(** X26: once the shutdown flag is seen the loop stops: whatever comes
    after it, no further item is taken and nothing else happens. *)
Theorem run_stops_at_shutdown
    (self : EncodingWorker.t) (before after : list Env) (env : Env)
    (st : list Path * World) :
  shutdown env = true →
  EncodingWorker.run self (before ++ env :: after) st
  = EncodingWorker.run self before st.
Proof.
  intros Hs. revert st. induction before as [|e before IH]; intros st;
    cbn [app EncodingWorker.run].
  - by rewrite Hs.
  - destruct (shutdown e); [done|].
    destruct (EncodingWorker.step self e st) as [st' ev]. by rewrite IH.
Qed.

Lemma run_stops_at_shutdown_witness :
  shutdown (mk_env true (mk_usage (5 # 1) (0 # 1)) (tools_with hevc_2160_aac 0 350))
  = true
  ∧ EncodingWorker.run the_worker
      ([busy] ++ mk_env true (mk_usage (5 # 1) (0 # 1))
                        (tools_with hevc_2160_aac 0 350)
              :: [idle (tools_with hevc_2160_aac 0 350)])
      ([movie_mkv], media_world)
    = EncodingWorker.run the_worker [busy] ([movie_mkv], media_world).
Proof.
  split; [reflexivity|].
  apply (run_stops_at_shutdown the_worker [busy]
           [idle (tools_with hevc_2160_aac 0 350)]
           (mk_env true (mk_usage (5 # 1) (0 # 1)) (tools_with hevc_2160_aac 0 350))
           ([movie_mkv], media_world)).
  reflexivity.
Defined.

(** X27: while admission is denied the queue rotates: after [n] turns,
    with [n] at most the length of the queue and every item still
    eligible, the first [n] items stand at the tail in their old order, so
    the order of arrival is not kept. *)
Theorem denied_admission_rotates_the_queue
    (self : EncodingWorker.t) (envs : list Env) (q : list Path) (w : World) :
  Forall (λ env, shutdown env = false ∧ denies self env) envs →
  Forall (λ p, FileScanner.should_process (EncodingWorker.scanner self) w p
               = Ok true) q →
  length envs ≤ length q →
  (EncodingWorker.run self envs (q, w)).1
  = (drop (length envs) q ++ take (length envs) q, w).
Proof.
  intros Henvs. revert q. induction Henvs as [|env envs [Hsh Hd] _ IH];
    intros q Hq Hlen; cbn [EncodingWorker.run].
  - simpl. by rewrite app_nil_r.
  - rewrite Hsh. destruct q as [|p rest]; [simpl in Hlen; lia|].
    apply Forall_cons in Hq as [Hp Hrest].
    destruct (step_deferred self env p rest w Hd Hp) as [why ->].
    specialize (IH (rest ++ [p])).
    destruct (EncodingWorker.run self envs (rest ++ [p], w)) as [[q2 w2] evs].
    simpl in *. rewrite IH.
    + f_equal. rewrite drop_app_le, take_app_le by lia.
      by rewrite <- app_assoc.
    + apply Forall_app. split; [done|]. by constructor.
    + rewrite length_app. simpl. lia.
Qed.

Lemma denied_admission_rotates_the_queue_witness :
  Forall (λ env, shutdown env = false ∧ denies the_worker env) [busy]
  ∧ Forall (λ p, FileScanner.should_process (EncodingWorker.scanner the_worker)
                   stars_world p = Ok true) [good_mkv; good_mkv]
  ∧ length [busy] ≤ length [good_mkv; good_mkv]
  ∧ (EncodingWorker.run the_worker [busy] ([good_mkv; good_mkv], stars_world)).1
    = (drop (length [busy]) [good_mkv; good_mkv]
       ++ take (length [busy]) [good_mkv; good_mkv], stars_world).
Proof.
  assert (H1 : Forall (λ env, shutdown env = false ∧ denies the_worker env) [busy]).
  { repeat constructor. }
  assert (H2 : Forall (λ p, FileScanner.should_process
                              (EncodingWorker.scanner the_worker) stars_world p
                            = Ok true) [good_mkv; good_mkv]).
  { assert (FileScanner.should_process (EncodingWorker.scanner the_worker)
              stars_world good_mkv = Ok true) by (vm_compute; reflexivity).
    repeat constructor; assumption. }
  assert (H3 : length [busy] ≤ length [good_mkv; good_mkv]) by (simpl; lia).
  split; [exact H1|]. split; [exact H2|]. split; [exact H3|].
  apply (denied_admission_rotates_the_queue the_worker [busy]
           [good_mkv; good_mkv] stars_world H1 H2 H3).
Defined.

Lemma is_file_stable_true_sizes (obs : Samples) (p : Path) (t : Z) :
  FileScanner.is_file_stable obs p t = Ok true →
  ∃ e1 e2, os_stat (first_stat obs) p = Ok e1
           ∧ os_stat (second_stat obs) p = Ok e2
           ∧ st_size e1 = st_size e2.
Proof.
  unfold FileScanner.is_file_stable.
  destruct (path_exists (first_exists obs) p) as [[|]|x1]; simpl;
    [| done | by destruct (is_OSError x1)].
  destruct (os_stat (first_stat obs) p) as [e1|x2]; simpl;
    [| by destruct (is_OSError x2)].
  destruct (sleep (wait_refused obs) t) as [[]|x]; simpl;
    [| by destruct (is_OSError x)].
  destruct (path_exists (second_exists obs) p) as [[|]|x3]; simpl;
    [| done | by destruct (is_OSError x3)].
  destruct (os_stat (second_stat obs) p) as [e2|x4]; simpl;
    [| by destruct (is_OSError x4)].
  intros [= H%bool_decide_eq_true]. by exists e1, e2.
Qed.

(** X28: a file whose size differs between the two samples of the
    stability check is not queued by a filesystem event. *)
Theorem growing_file_is_not_queued
    (sc : FileScanner.t) (w : World) (obs : Samples) (q : list Path)
    (ev : FileSystemEvent) (e1 e2 : entry) :
  os_stat (first_stat obs) (src_path ev) = Ok e1 →
  os_stat (second_stat obs) (src_path ev) = Ok e2 →
  st_size e1 ≠ st_size e2 →
  VideoFileHandler.on_created sc w obs q ev = q
  ∧ VideoFileHandler.on_modified sc w obs q ev = q.
Proof.
  intros H1 H2 Hne.
  assert (Hns : FileScanner.is_file_stable obs (src_path ev) 5 ≠ Ok true).
  { intros (e1' & e2' & E1 & E2 & Hs)%is_file_stable_true_sizes. congruence. }
  unfold VideoFileHandler.on_created, VideoFileHandler.on_modified,
    VideoFileHandler._handle_file.
  destruct (is_directory ev); [done|].
  destruct (FileScanner.should_process sc w (src_path ev)) as [[|]|e]; simpl;
    [|done..].
  by destruct (FileScanner.is_file_stable obs (src_path ev) 5) as [[|]|e].
Qed.

Lemma growing_file_is_not_queued_witness :
  os_stat media_world movie_mkv = Ok (file 700)
  ∧ os_stat (write_file media_world movie_mkv 900) movie_mkv = Ok (file 900)
  ∧ st_size (file 700) ≠ st_size (file 900)
  ∧ VideoFileHandler.on_created the_scanner media_world
      (mk_samples media_world media_world false
                  (write_file media_world movie_mkv 900)
                  (write_file media_world movie_mkv 900))
      [] (mk_event false movie_mkv) = []
  ∧ VideoFileHandler.on_modified the_scanner media_world
      (mk_samples media_world media_world false
                  (write_file media_world movie_mkv 900)
                  (write_file media_world movie_mkv 900))
      [] (mk_event false movie_mkv) = [].
Proof.
  assert (H1 : os_stat media_world movie_mkv = Ok (file 700))
    by (vm_compute; reflexivity).
  assert (H2 : os_stat (write_file media_world movie_mkv 900) movie_mkv
               = Ok (file 900)) by (vm_compute; reflexivity).
  assert (H3 : st_size (file 700) ≠ st_size (file 900)) by discriminate.
  split; [exact H1|]. split; [exact H2|]. split; [exact H3|].
  apply (growing_file_is_not_queued the_scanner media_world
           (mk_samples media_world media_world false
                       (write_file media_world movie_mkv 900)
                       (write_file media_world movie_mkv 900))
           [] (mk_event false movie_mkv) (file 700) (file 900) H1 H2 H3).
Defined.

(** X29: a source whose derivative, with whatever extension, lies beside
    it is not a candidate of any scan: once encoded, a file is not found
    again; this holds for stems and markers without an opening bracket and
    without two stars in a row. *)
Theorem encoded_source_is_not_rescanned
    (sc : FileScanner.t) (w : World) (p folder : Path) (x : str) :
  name p ≠ [] →
  "["%char ∉ path_stem p ++ FileScanner.suffix sc →
  contains (output_pattern sc p) (lit "**") = false →
  stat_denied w (parent p) = false → list_denied w (parent p) = false →
  tree_shaped w = true →
  is_Some (entries w !! (parent p ++ [(path_stem p ++ FileScanner.suffix sc)
                                       ++ dot :: x])) →
  p ∉ FileScanner.scan_folder sc w folder.
Proof.
  intros Hn Hb Hpat Hs Hl Ht Hd [_ Hc]%scan_folder_elem.
  apply candidate_check_true in Hc as (_ & _ & Ho).
  destruct (has_output_file_finds sc w p x Hn Hb Hpat Hs Hl Ht Hd) as [Ho' _].
  congruence.
Qed.

Lemma encoded_source_is_not_rescanned_witness :
  name movie_mkv ≠ []
  ∧ ("["%char ∉ path_stem movie_mkv ++ FileScanner.suffix the_scanner)
  ∧ contains (output_pattern the_scanner movie_mkv) (lit "**") = false
  ∧ stat_denied avi_world (parent movie_mkv) = false
  ∧ list_denied avi_world (parent movie_mkv) = false
  ∧ tree_shaped avi_world = true
  ∧ is_Some (entries avi_world
               !! (parent movie_mkv
                   ++ [(path_stem movie_mkv ++ FileScanner.suffix the_scanner)
                       ++ dot :: lit "avi"]))
  ∧ (movie_mkv ∉ FileScanner.scan_folder the_scanner avi_world media).
Proof.
  assert (Hb : "["%char ∉ path_stem movie_mkv ++ FileScanner.suffix the_scanner).
  { intros H. repeat (apply elem_of_cons in H as [H|H]; [discriminate H|]).
    by apply elem_of_nil in H. }
  assert (Ht : tree_shaped avi_world = true) by (vm_compute; reflexivity).
  assert (Hd : is_Some (entries avi_world
               !! (parent movie_mkv
                   ++ [(path_stem movie_mkv ++ FileScanner.suffix the_scanner)
                       ++ dot :: lit "avi"]))) by (by eexists).
  split; [discriminate|]. split; [exact Hb|]. split; [reflexivity|].
  split; [reflexivity|]. split; [reflexivity|]. split; [exact Ht|].
  split; [exact Hd|].
  apply (encoded_source_is_not_rescanned the_scanner avi_world movie_mkv media
           (lit "avi"));
    [discriminate | exact Hb | reflexivity | reflexivity | reflexivity
     | exact Ht | exact Hd].
Defined.
